(** * nlp_news_pipeline: the Streamlit classifier front end

    A shallow embedding of [scripts/streamlit_app.py]: the prediction
    wrapper [predict_category], the batch path of the second tab (file
    parsing, chunking with [np.array_split], the stored results frame, the
    confidence filter and the CSV download) and the single-article handler
    of the first tab.

    The pretrained tokenizer and model and the soft-max are library code:
    they are Section variables, and so are the pandas CSV reader and
    writer in the runs of the script.  Python values, [str.strip], UTF-8
    decoding, [torch.argmax], [np.array_split] and the Streamlit control
    flow are written out, and so are the CSV writer and the reader's
    tokenizer and column typing in their default dialect, for the export
    read back. *)

From Stdlib Require Import ZArith NArith Bool List Lia.
From Stdlib Require Import Floats.SpecFloat.
From stdpp Require Import gmap strings list fin_maps pretty.

Set Default Proof Using "Type".

(** ** Python values *)

(** A [str] is a sequence of code points, a [bytes] object a sequence of
    octets; both are lists of numbers. *)
Abbreviation str := (list N) (only parsing).
Abbreviation bytes := (list N) (only parsing).

(** Python floats are binary64 values; [spec_float] is the Standard
    Library's specification type for them, with IEEE comparison
    ([SFleb], [SFltb]: every comparison with a NaN is false).  A finite
    value is written with its 53-bit mantissa, the form in which the
    comparison of exponent and mantissa is the order of the values. *)
Abbreviation float := spec_float (only parsing).

(** An ASCII literal of the source as a [str]. *)
Definition lit (s : string) : str :=
  map (λ c, N.of_nat (Ascii.nat_of_ascii c)) (String.list_ascii_of_string s).

(** [str(n)] for a non-negative [int]. *)
Definition str_of_nat (n : nat) : str := lit (pretty n).

Arguments lit : simpl never.
Arguments str_of_nat : simpl never.

Definition float_zero : float := S754_zero false.

Definition isnan (x : float) : bool :=
  match x with S754_nan => true | _ => false end.

(** [a >= b] on floats. *)
Definition float_ge (a b : float) : bool := SFleb b a.

(** The objects that occur as entries of a text list or as cells of a
    parsed CSV column. *)
Inductive pyval :=
| PStr (s : str)
| PInt (z : Z)
| PFloat (f : float)
| PBool (b : bool)
| PNone.

Definition isinstance_str (v : pyval) : bool :=
  match v with PStr _ => true | _ => false end.

(** An exception: its class and [str(e)]. *)
Record exn := Exception { exn_class : string; exn_str : str }.

Definition IndexError (msg : string) : exn := Exception "IndexError" (lit msg).
Definition ValueError (msg : string) : exn := Exception "ValueError" (lit msg).
Definition NameError (msg : string) : exn := Exception "NameError" (lit msg).
Definition KeyError (key : string) : exn :=
  Exception "KeyError" (lit "'" ++ lit key ++ lit "'").
Definition UnicodeDecodeError (msg : string) : exn :=
  Exception "UnicodeDecodeError" (lit msg).

(** *** Whitespace and [strip] *)

(** [str.isspace] of one code point (CPython's [_PyUnicode_IsWhitespace]). *)
Definition isspace (c : N) : bool :=
  (((0x09 <=? c) && (c <=? 0x0D)) || ((0x1C <=? c) && (c <=? 0x20))
  || (c =? 0x85) || (c =? 0xA0) || (c =? 0x1680)
  || ((0x2000 <=? c) && (c <=? 0x200A))
  || (c =? 0x2028) || (c =? 0x2029) || (c =? 0x202F) || (c =? 0x205F)
  || (c =? 0x3000))%N.

(** The octets [bytes.strip] removes: space, tab, LF, VT, FF, CR. *)
Definition bytes_isspace (b : N) : bool :=
  (((0x09 <=? b) && (b <=? 0x0D)) || (b =? 0x20))%N.

Fixpoint lstrip_with (sp : N → bool) (s : list N) : list N :=
  match s with
  | [] => []
  | c :: s' => if sp c then lstrip_with sp s' else s
  end.

Definition rstrip_with (sp : N → bool) (s : list N) : list N :=
  rev (lstrip_with sp (rev s)).

Definition strip_with (sp : N → bool) (s : list N) : list N :=
  rstrip_with sp (lstrip_with sp s).

(** [s.strip()] on a [str] and on a [bytes]. *)
Definition strip (s : str) : str := strip_with isspace s.
Definition bytes_strip (b : bytes) : bytes := strip_with bytes_isspace b.

(** Truth value of a sequence: non-empty. *)
Definition truthy {A} (l : list A) : bool :=
  match l with [] => false | _ => true end.

(** ** torch.argmax on one row *)

(** The reduction's comparison, for [a] at the larger index: [a] replaces
    the running maximum [b] when it is strictly greater, or when it is a
    NaN and [b] is not.  Ties keep the smaller index. *)
Definition greater_or_nan (a b : float) : bool :=
  if isnan a then negb (isnan b) else SFltb b a.

Fixpoint argmax_from (best_idx : nat) (best : float) (i : nat)
    (xs : list float) : nat :=
  match xs with
  | [] => best_idx
  | x :: xs' =>
      if greater_or_nan x best then argmax_from i x (S i) xs'
      else argmax_from best_idx best (S i) xs'
  end.

(** [torch.argmax(row, dim=-1).item()]; an empty row is an error. *)
Definition argmax (xs : list float) : exn + nat :=
  match xs with
  | [] => inl (IndexError "argmax(): Expected reduction dim 1 to have non-zero size.")
  | x :: xs' => inr (argmax_from 0 x 1 xs')
  end.

(** ** The prediction wrapper *)

(** One entry of the list [predict_category] returns. *)
Record result := Result {
  text : pyval;
  predicted_category : str;
  confidence : float;
  raw_probabilities : gmap (list N) spec_float
}.

Section Classifier.
Context {encoding : Type}.
(** [loaded_tokenizer(text, truncation=True, max_length=128)]. *)
Variable loaded_tokenizer : str → encoding.
(** The logits row of the model call on [inputs]; an exception of the
    model call is returned on the left. *)
Variable loaded_model : encoding → exn + list float.
(** [torch.nn.functional.softmax(_, dim=-1)]. *)
Variable softmax : list float → list float.
Variable id_to_label_map : gmap nat (list N).

(** [id_to_label_map.get(i, f"L_{i}")]. *)
Definition label_or_L (i : nat) : str :=
  default (lit "L_" ++ str_of_nat i) (id_to_label_map !! i).

(** [{id_to_label_map.get(i, f"L_{i}"): p for i, p in enumerate(row)}]:
    a later entry overwrites an earlier one under the same key. *)
Fixpoint dict_of_enumerate (d : gmap (list N) spec_float) (i : nat)
    (row : list float) : gmap (list N) spec_float :=
  match row with
  | [] => d
  | p :: row' => dict_of_enumerate (<[label_or_L i := p]> d) (S i) row'
  end.

Definition sentinel (text : pyval) : result :=
  Result text (lit "Invalid/Empty") float_zero ∅.

(** The guard of the loop body:
    [not isinstance(text, str) or not text.strip()]. *)
Definition invalid_or_empty (text : pyval) : bool :=
  match text with
  | PStr s => negb (truthy (strip s))
  | _ => true
  end.

(** The rest of the loop body, for a [str] that passed the guard.  The
    entries of the row are binary32 numbers; [.item()] widens one to a
    Python float without changing its value, so the confidence and the
    stored probabilities are kept as the same values. *)
Definition classify (s : str) : exn + result :=
  let inputs := loaded_tokenizer s in
  match loaded_model inputs with
  | inl e => inl e
  | inr logits =>
      let probabilities := softmax logits in
      match argmax probabilities with
      | inl e => inl e
      | inr predicted_label_idx =>
          match probabilities !! predicted_label_idx with
          | None => inl (IndexError "index out of range")
          | Some p =>
              inr (Result (PStr s)
                     (default (lit "Unknown")
                        (id_to_label_map !! predicted_label_idx))
                     p
                     (dict_of_enumerate ∅ 0 probabilities))
          end
      end
  end.

(** The loop body: the record appended for one entry, or the exception
    that leaves the loop. *)
Definition record_for (text : pyval) : exn + result :=
  if invalid_or_empty text then inr (sentinel text)
  else
    match text with
    | PStr s => classify s
    | _ => inr (sentinel text)
    end.

(** [for text in text_list: ...] with the accumulator [results]. *)
Fixpoint predict_loop (results : list result) (text_list : list pyval)
    : exn + list result :=
  match text_list with
  | [] => inr results
  | text :: rest =>
      match record_for text with
      | inl e => inl e
      | inr r => predict_loop (results ++ [r]) rest
      end
  end.

Definition predict_category (text_list : list pyval) : exn + list result :=
  let results := [] in
  if negb (truthy text_list) then inr results
  else predict_loop results text_list.

End Classifier.

(** ** Reading an uploaded text file *)

Definition in_range (lo hi b : N) : bool := ((lo <=? b) && (b <=? hi))%N.

(** The six payload bits of a continuation octet. *)
Definition cont_bits (b : N) : N := N.land b 0x3F.

(** [bytes.decode("utf-8")] with the default strict error handling: the
    well-formed octet sequences of the Unicode standard (no overlong forms,
    no surrogates, nothing above U+10FFFF); [None] is a
    [UnicodeDecodeError]. *)
Fixpoint utf8_decode (b : bytes) : option str :=
  match b with
  | [] => Some []
  | b0 :: r0 =>
      if (b0 <? 0x80)%N then cons b0 <$> utf8_decode r0
      else
        match r0 with
        | [] => None
        | b1 :: r1 =>
            if in_range 0xC2 0xDF b0 then
              if in_range 0x80 0xBF b1 then
                cons (N.lor (N.shiftl (N.land b0 0x1F) 6) (cont_bits b1))
                  <$> utf8_decode r1
              else None
            else
              match r1 with
              | [] => None
              | b2 :: r2 =>
                  if in_range 0xE0 0xEF b0 then
                    if in_range
                         (if (b0 =? 0xE0)%N then 0xA0 else 0x80)
                         (if (b0 =? 0xED)%N then 0x9F else 0xBF) b1
                       && in_range 0x80 0xBF b2
                    then
                      cons (N.lor (N.shiftl (N.land b0 0x0F) 12)
                              (N.lor (N.shiftl (cont_bits b1) 6) (cont_bits b2)))
                        <$> utf8_decode r2
                    else None
                  else
                    match r2 with
                    | [] => None
                    | b3 :: r3 =>
                        if in_range 0xF0 0xF4 b0
                           && in_range
                                (if (b0 =? 0xF0)%N then 0x90 else 0x80)
                                (if (b0 =? 0xF4)%N then 0x8F else 0xBF) b1
                           && in_range 0x80 0xBF b2
                           && in_range 0x80 0xBF b3
                        then
                          cons (N.lor (N.shiftl (N.land b0 0x07) 18)
                                  (N.lor (N.shiftl (cont_bits b1) 12)
                                     (N.lor (N.shiftl (cont_bits b2) 6)
                                        (cont_bits b3))))
                            <$> utf8_decode r3
                        else None
                    end
              end
        end
  end.

(** [b.decode("utf-8")].  The exception has the class of CPython's; of
    its text, which in CPython also names the octet, its position and the
    reason, only the constant part is kept. *)
Definition decode_utf8 (b : bytes) : exn + str :=
  match utf8_decode b with
  | Some s => inr s
  | None => inl (UnicodeDecodeError "'utf-8' codec can't decode bytes")
  end.

(** Iterating a binary file object: the lines, each with its terminating
    LF when it has one. *)
Fixpoint readlines (data : bytes) : list bytes :=
  match data with
  | [] => []
  | b :: rest =>
      if (b =? 0x0A)%N then [b] :: readlines rest
      else
        match readlines rest with
        | [] => [[b]]
        | l :: ls => (b :: l) :: ls
        end
  end.

(** [[line.decode("utf-8").strip() for line in uploaded_file if line.strip()]]
    over the lines of the file. *)
Fixpoint txt_texts (lines : list bytes) : exn + list str :=
  match lines with
  | [] => inr []
  | line :: rest =>
      if truthy (bytes_strip line) then
        match decode_utf8 line with
        | inl e => inl e
        | inr s =>
            match txt_texts rest with
            | inl e => inl e
            | inr ts => inr (strip s :: ts)
            end
        end
      else txt_texts rest
  end.

(** [s.endswith(suffix)]. *)
Definition endswith (s suffix : str) : bool :=
  bool_decide (drop (length s - length suffix) s = suffix).

(** ** NumPy: splitting a list of strings *)

(** [np.array_split] first turns the list into an array.  A list of [str]
    becomes a fixed-width Unicode array in which shorter entries are padded
    with U+0000; reading an entry back ([tolist]) drops every trailing
    U+0000, the padding and any the string itself ended with. *)
Definition np_item (s : str) : str := rstrip_with (N.eqb 0) s.

Definition np_asarray (texts : list str) : list str := map np_item texts.

Fixpoint cumsum_from (acc : nat) (l : list nat) : list nat :=
  match l with
  | [] => []
  | x :: l' => (acc + x) :: cumsum_from (acc + x) l'
  end.

Definition cumsum (l : list nat) : list nat := cumsum_from 0 l.

(** [l[st:end_]]. *)
Definition slice {A} (st end_ : nat) (l : list A) : list A :=
  take (end_ - st) (drop st l).

(** [np.array_split(ary, Nsections)] along the only axis, on the entries of
    the array: [Ntotal % Nsections] sections of size
    [Ntotal // Nsections + 1], then the rest of size [Ntotal // Nsections]. *)
Definition array_split {A} (sary : list A) (Nsections : nat)
    : exn + list (list A) :=
  let Ntotal := length sary in
  if Nsections =? 0 then
    inl (ValueError "number sections must be larger than 0.")
  else
    let Neach_section := Ntotal / Nsections in
    let extras := Ntotal mod Nsections in
    let section_sizes :=
      [0] ++ replicate extras (Neach_section + 1)
          ++ replicate (Nsections - extras) Neach_section in
    let div_points := cumsum section_sizes in
    inr (map (λ i, slice (nth i div_points 0) (nth (S i) div_points 0) sary)
           (seq 0 Nsections)).

(** ** pandas frames *)

(** A frame read from a CSV file: its column labels, each with the cells
    of the column. *)
Definition csv_frame := list (list N * list pyval).

(** [pd.isna] of a cell. *)
Definition isna (v : pyval) : bool :=
  match v with
  | PNone => true
  | PFloat f => isnan f
  | _ => false
  end.

(** The frame [pd.DataFrame(results)] of a list of result records: the
    keys of the records as columns, and no column at all when the list is
    empty. *)
Record DataFrame := Frame { df_columns : list (list N); df_rows : list result }.

Definition result_keys : list (list N) :=
  [lit "text"; lit "predicted_category"; lit "confidence";
   lit "raw_probabilities"].

Definition pd_DataFrame (results : list result) : DataFrame :=
  match results with
  | [] => Frame [] []
  | _ => Frame result_keys results
  end.

(** [df[df['confidence'] >= threshold]]: selecting the column raises
    [KeyError] when the frame has no such column. *)
Definition filter_confidence (df : DataFrame) (threshold : float)
    : exn + DataFrame :=
  if bool_decide (lit "confidence" ∈ df_columns df) then
    inr (Frame (df_columns df)
           (List.filter (λ r, float_ge (confidence r) threshold) (df_rows df)))
  else inl (KeyError "confidence").

(** [series.value_counts()]: how often each value occurs. *)
Fixpoint value_counts (values : list (list N)) : gmap (list N) nat :=
  match values with
  | [] => ∅
  | v :: vs =>
      let counts := value_counts vs in
      <[v := S (default 0 (counts !! v))]> counts
  end.

(** [df['predicted_category'].value_counts()]. *)
Definition category_value_counts (df : DataFrame) : exn + gmap (list N) nat :=
  if bool_decide (lit "predicted_category" ∈ df_columns df) then
    inr (value_counts (map predicted_category (df_rows df)))
  else inl (KeyError "predicted_category").

(** ** Streamlit: one run of the script *)

(** What a run puts on the page.  Formatted numbers and figures are kept
    as the values they are rendered from. *)
Inductive element :=
| st_error (body : list N)
| st_warning (body : list N)
| st_info (body : list N)
| st_success (body : list N)
| st_header (body : list N)
| st_subheader (body : list N)
| st_markdown (body : list N)
| st_metric (label : list N) (value : spec_float)
| st_probability_chart (probabilities : gmap (list N) spec_float)
| st_category_chart (threshold : spec_float) (counts : gmap (list N) nat)
| st_dataframe (counts : gmap (list N) nat)
| st_progress (done_chunks num_chunks : nat) (text : list N)
| st_progress_empty
| st_download_button (data : list N) (file_name mime : list N).

(** [st.session_state]: the text area, the uploader key counter and the
    stored results frame, when there is one. *)
Record session := Session {
  text_input_single : list N;
  uploader_key_counter : nat;
  results_df : option DataFrame
}.

(** The state a run works on: the session, the page rendered so far and
    the argument of every call of [predict_category] so far. *)
Record world := World {
  session_state : session;
  page : list element;
  predictions : list (list pyval)
}.

(** How a piece of the script ends: normally, with an exception of class
    [Exception], or with the script runner's [StopException] of [st.stop()],
    which is a [BaseException] and passes every [except Exception]. *)
Inductive outcome (A : Type) :=
| Done (a : A)
| Raised (e : exn)
| Stopped.
Arguments Done {A} a.
Arguments Raised {A} e.
Arguments Stopped {A}.

Definition app (A : Type) : Type := world → outcome A * world.

#[export] Instance app_ret : MRet app := λ A a w, (Done a, w).

#[export] Instance app_bind : MBind app := λ A B f m w,
  match m w with
  | (Done a, w') => f a w'
  | (Raised e, w') => (Raised e, w')
  | (Stopped, w') => (Stopped, w')
  end.

Definition raise {A} (e : exn) : app A := λ w, (Raised e, w).

(** [st.stop()]. *)
Definition st_stop {A} : app A := λ w, (Stopped, w).

(** [try: body except Exception as e: handler(e)]. *)
Definition try_except {A} (body : app A) (handler : exn → app A) : app A :=
  λ w,
    match body w with
    | (Raised e, w') => handler e w'
    | r => r
    end.

(** A value or the exception a pure computation raised. *)
Definition lift {A} (r : exn + A) : app A :=
  match r with
  | inl e => raise e
  | inr a => mret a
  end.

(** How a call ends that returns a value or raises. *)
Definition outcome_of {A} (r : exn + A) : outcome A :=
  match r with
  | inl e => Raised e
  | inr a => Done a
  end.

Definition render (e : element) : app unit := λ w,
  (Done (), World (session_state w) (page w ++ [e]) (predictions w)).

Definition get_session : app session := λ w, (Done (session_state w), w).

Definition set_results_df (df : DataFrame) : app unit := λ w,
  (Done (),
   World (Session (text_input_single (session_state w))
            (uploader_key_counter (session_state w)) (Some df))
     (page w) (predictions w)).

(** [st.button(..., disabled=d)]: true in the run its click triggered; a
    disabled button cannot be clicked. *)
Definition st_button (clicked disabled : bool) : bool :=
  clicked && negb disabled.

(** An uploaded file. *)
Record UploadedFile := Upload { name : list N; data : list N }.

(** The widget values of one run: the sidebar controls, the uploaded file
    and which button, if any, was clicked. *)
Record widgets := Widgets {
  confidence_threshold : spec_float;
  max_batch_size : nat;
  uploaded_file : option UploadedFile;
  classify_clicked : bool;
  run_analysis_clicked : bool
}.

Section Script.
Context {encoding : Type}.
Variable loaded_tokenizer : str → encoding.
Variable loaded_model : encoding → exn + list float.
Variable softmax : list float → list float.
Variable id_to_label_map : gmap nat (list N).
(** [pd.read_csv] on the uploaded octets. *)
Variable pd_read_csv : bytes → exn + csv_frame.
(** [str(x)] for a float cell, as [astype(str)] renders it. *)
Variable repr_float : float → str.
(** [df.to_csv(index=False).encode('utf-8')]. *)
Variable to_csv : DataFrame → bytes.

(** A call of [predict_category] with the loaded model: the call is
    recorded, its result returned or its exception raised. *)
Definition call_predict_category (text_list : list pyval)
    : app (list result) := λ w,
  lift (predict_category loaded_tokenizer loaded_model softmax
          id_to_label_map text_list)
    (World (session_state w) (page w) (predictions w ++ [text_list])).

(** The element of a column under [astype(str)]. *)
Definition astype_str (v : pyval) : str :=
  match v with
  | PStr s => s
  | PInt z => lit (pretty z)
  | PFloat f => repr_float f
  | PBool b => if b then lit "True" else lit "False"
  | PNone => lit "None"
  end.

(** [df[label]] when [label in df.columns]. *)
Fixpoint column (label : str) (df : csv_frame) : option (list pyval) :=
  match df with
  | [] => None
  | (l, cells) :: df' =>
      if bool_decide (l = label) then Some cells else column label df'
  end.

(** [series.dropna().astype(str).tolist()]. *)
Definition dropna_astype_str (cells : list pyval) : list str :=
  map astype_str (List.filter (λ v, negb (isna v)) cells).

(** ** The first tab: one article *)

Definition tab1 (ui : widgets) : app unit :=
  render (st_header (lit "Analyze a Single Article"));;
  s ← get_session;
  let user_input_single := text_input_single s in
  if st_button (classify_clicked ui) (negb (truthy user_input_single)) then
    if length (strip user_input_single) <? 10 then
      render (st_warning (lit "Input is too short. Please provide more text."))
    else
      results ← call_predict_category [PStr user_input_single];
      result ← lift (match results with
                     | r :: _ => inr r
                     | [] => inl (IndexError "list index out of range")
                     end);
      render (st_subheader (lit "Classification Result"));;
      let category := predicted_category result in
      let confidence := confidence result in
      (if float_ge confidence (confidence_threshold ui) then
         render (st_success (lit "**Category: " ++ category ++ lit "**"))
       else
         render (st_warning (lit "**Category: " ++ category
                               ++ lit "** (Confidence below threshold)")));;
      render (st_metric (lit "Confidence Score") confidence);;
      render (st_probability_chart (raw_probabilities result))
  else mret ().

(** ** The second tab: a batch *)

(** The texts of the uploaded file.  A name with neither suffix leaves
    [texts] unbound, and its first use raises [NameError]. *)
Definition parse_upload (f : UploadedFile) : app (list str) :=
  if endswith (name f) (lit ".txt") then
    lift (txt_texts (readlines (data f)))
  else if endswith (name f) (lit ".csv") then
    df ← lift (pd_read_csv (data f));
    match column (lit "text") df with
    | None =>
        render (st_error (lit "CSV file must contain a 'text' column."));;
        st_stop
    | Some cells => mret (dropna_astype_str cells)
    end
  else raise (NameError "name 'texts' is not defined").

(** [for i, text_chunk in enumerate(chunks): results.extend(...); ...]. *)
Fixpoint chunk_loop (num_chunks ntexts : nat) (i : nat)
    (results : list result) (chunks : list (list str))
    : app (list result) :=
  match chunks with
  | [] => mret results
  | text_chunk :: rest =>
      rs ← call_predict_category (map PStr text_chunk);
      let results := results ++ rs in
      render (st_progress (i + 1) num_chunks
                (lit "Processing... " ++ str_of_nat (length results)
                   ++ lit "/" ++ str_of_nat ntexts
                   ++ lit " articles classified."));;
      chunk_loop num_chunks ntexts (S i) results rest
  end.

(** The results of the batch: the texts are split in
    [max(1, len(texts) // 10)] chunks and each chunk is predicted. *)
Definition batch_results (texts : list str) : app (list result) :=
  let results := [] in
  let num_chunks := max 1 (length texts / 10) in
  chunks ← lift (array_split (np_asarray texts) num_chunks);
  chunk_loop num_chunks (length texts) 0 results chunks.

(** The body of the Run Analysis button. *)
Definition run_analysis (texts : list str) : app unit :=
  render (st_progress 0 1 (lit "Starting batch analysis..."));;
  results ← batch_results texts;
  render st_progress_empty;;
  render (st_success (lit "Batch analysis complete!"));;
  set_results_df (pd_DataFrame results).

(** The [try] block for an uploaded file. *)
Definition process_upload (ui : widgets) (f : UploadedFile) : app unit :=
  texts ← parse_upload f;
  render (st_info (lit "Found **" ++ str_of_nat (length texts)
                     ++ lit "** articles in the file."));;
  texts ← (if max_batch_size ui <? length texts then
             render (st_warning
                       (lit "File contains " ++ str_of_nat (length texts)
                          ++ lit " articles. Only processing the first **"
                          ++ str_of_nat (max_batch_size ui)
                          ++ lit "** as per settings."));;
             mret (take (max_batch_size ui) texts)
           else mret texts);
  if st_button (run_analysis_clicked ui) false then run_analysis texts
  else mret ().

(** The display of the stored results. *)
Definition show_results (ui : widgets) : app unit :=
  s ← get_session;
  match results_df s with
  | None => mret ()
  | Some results_df =>
      render (st_subheader (lit "Analysis Results"));;
      filtered_df ← lift (filter_confidence results_df
                            (confidence_threshold ui));
      category_counts ← lift (category_value_counts filtered_df);
      if negb (bool_decide (category_counts = ∅)) then
        render (st_category_chart (confidence_threshold ui) category_counts);;
        render (st_dataframe category_counts);;
        let csv := to_csv results_df in
        render (st_download_button csv
                  (lit "news_classification_results.csv") (lit "text/csv"))
      else
        render (st_warning (lit "No articles met the confidence threshold. Try lowering it in the sidebar settings."))
  end.

Definition tab2 (ui : widgets) : app unit :=
  render (st_header (lit "Analyze a Batch of Articles"));;
  render (st_markdown (lit "Upload a **TXT** (one article per line) or **CSV** (must contain a 'text' column) file."));;
  match uploaded_file ui with
  | Some f =>
      try_except (process_upload ui f)
        (λ e, render (st_error (lit "Error processing file: " ++ exn_str e)))
  | None => mret ()
  end;;
  show_results ui.

End Script.

(** ** The per-entry reading of the prediction loop *)

Section Records.
Context {encoding : Type}.
Variable loaded_tokenizer : str → encoding.
Variable loaded_model : encoding → exn + list float.
Variable softmax : list float → list float.
Variable id_to_label_map : gmap nat (list N).

(** The records of the entries one by one, in order, up to the first
    exception: what the accumulating loop is compared with. *)
Fixpoint records_for (text_list : list pyval) : exn + list result :=
  match text_list with
  | [] => inr []
  | text :: rest =>
      match record_for loaded_tokenizer loaded_model softmax
              id_to_label_map text with
      | inl e => inl e
      | inr r =>
          match records_for rest with
          | inl e => inl e
          | inr rs => inr (r :: rs)
          end
      end
  end.

(** The class probabilities of a text: the soft-max of the model's
    logits. *)
Definition probabilities_of (s : str) : exn + list float :=
  match loaded_model (loaded_tokenizer s) with
  | inl e => inl e
  | inr logits => inr (softmax logits)
  end.

End Records.

(** ** A small classifier for the examples *)

Module Demo.

(** 0.25, 0.5, 0.75 and 1.0 as binary64 values. *)
Definition quarter : float := S754_finite false 4503599627370496 (-54).
Definition half : float := S754_finite false 4503599627370496 (-53).
Definition three_quarters : float :=
  S754_finite false 6755399441055744 (-53).
Definition one : float := S754_finite false 4503599627370496 (-52).

(** Two classes; texts shorter than five code points fall in the second. *)
Definition tokenizer (s : str) : nat := length s.
Definition model (n : nat) : exn + list float :=
  inr (if n <? 5 then [quarter; three_quarters]
       else [three_quarters; quarter]).
Definition softmax (logits : list float) : list float := logits.
Definition labels : gmap nat (list N) :=
  <[0 := lit "World"]> (<[1 := lit "Sports"]> ∅).

Definition predict : list pyval → exn + list result :=
  predict_category tokenizer model softmax labels.

(** A CSV reader that knows one file: a [text] column with the cells
    [" "] and ["Stocks rally"], and a missing value. *)
Definition read_csv (b : bytes) : exn + csv_frame :=
  inr [(lit "id", [PInt 1; PInt 2; PInt 3]);
       (lit "text", [PStr (lit " "); PFloat S754_nan;
                     PStr (lit "Stocks rally")])].

(** A CSV reader whose frame has no [text] column. *)
Definition read_csv_no_text (b : bytes) : exn + csv_frame :=
  inr [(lit "title", [PStr (lit "Stocks rally")])].

Definition repr_float (f : float) : str := lit "nan".

(** The exported file as the number of rows written. *)
Definition to_csv (df : DataFrame) : bytes :=
  lit "rows=" ++ str_of_nat (length (df_rows df)).

(** A list with a proper text, a blank text, a [None] and a longer
    text, and the records [predict] returns for it. *)
Definition texts : list pyval :=
  [PStr (lit "abc"); PStr (lit "  "); PNone; PStr (lit "hello world")].

Definition results : list result :=
  [Result (PStr (lit "abc")) (lit "Sports") three_quarters
     (<[lit "World" := quarter]>
        (<[lit "Sports" := three_quarters]> ∅));
   sentinel (PStr (lit "  "));
   sentinel PNone;
   Result (PStr (lit "hello world")) (lit "World") three_quarters
     (<[lit "World" := three_quarters]>
        (<[lit "Sports" := quarter]> ∅))].

Definition fresh : world := World (Session [] 0 None) [] [].

End Demo.

(** ** Loading the model, and the reset callback *)

Definition MODEL_DIR : str := lit "models/trained_news_classifier".
Definition LABEL_MAP_FILE : str := lit "models/label_map.pkl".

(** [{v: k for k, v in items}] over the items of the pickled label map in
    their order: a later item overwrites an earlier one with the same
    index. *)
Fixpoint invert_items (d : gmap nat (list N)) (items : list (list N * nat))
    : gmap nat (list N) :=
  match items with
  | [] => d
  | (k, v) :: rest => invert_items (<[v := k]> d) rest
  end.

Inductive device := cuda | cpu.

(** The text of the error for missing model files. *)
Definition model_files_not_found : str :=
  lit "**Error:** Model files not found. " ++ [0x1F6A8%N] ++ lit "**"
    ++ [10%N; 10%N]
    ++ lit "Please ensure the `" ++ MODEL_DIR ++ lit "` and `"
    ++ LABEL_MAP_FILE ++ lit "` are in your GitHub repository."
    ++ [10%N; 10%N]
    ++ lit "**Important**: If your model is large, you must use Git LFS (Large File Storage) to track it. ".

Section Loading.
Context {tokenizer_t model_t : Type}.
(** [os.path.exists]. *)
Variable path_exists : str → bool.
(** [torch.cuda.is_available()]. *)
Variable cuda_is_available : bool.
(** Opening the file and [pickle.load(f).items()]. *)
Variable load_items : str → exn + list (list N * nat).
(** [AutoTokenizer.from_pretrained]. *)
Variable tokenizer_from_pretrained : str → exn + tokenizer_t.
(** [AutoModelForSequenceClassification.from_pretrained], moved to the
    device and put in evaluation mode. *)
Variable model_from_pretrained : str → device → exn + model_t.

Definition load_model_and_tokenizer
    : app (model_t * tokenizer_t * gmap nat (list N) * device) :=
  (if negb (path_exists MODEL_DIR) || negb (path_exists LABEL_MAP_FILE) then
     render (st_error model_files_not_found);; st_stop
   else mret ());;
  try_except
    (let device := if cuda_is_available then cuda else cpu in
     items ← lift (load_items LABEL_MAP_FILE);
     let id_to_label := invert_items ∅ items in
     tokenizer ← lift (tokenizer_from_pretrained MODEL_DIR);
     model ← lift (model_from_pretrained MODEL_DIR device);
     mret (model, tokenizer, id_to_label, device))
    (λ e,
       render (st_error (lit "An error occurred during model loading: "
                           ++ exn_str e));;
       st_stop).

End Loading.

(** The callback of the Clear button: the text area is emptied, the
    stored results are dropped and the uploader key counter goes up. *)
Definition clear_inputs_and_results : app unit := λ w,
  (Done (),
   World (Session [] (uploader_key_counter (session_state w) + 1) None)
     (page w) (predictions w)).

(** [f"file_uploader_{st.session_state.uploader_key_counter}"], the key of
    the upload widget. *)
Definition file_uploader_key (s : session) : str :=
  lit "file_uploader_" ++ str_of_nat (uploader_key_counter s).

(** How often a category occurs in a column. *)
Definition occurrences (c : str) (values : list (list N)) : nat :=
  length (List.filter (λ v, bool_decide (v = c)) values).

(** ** The CSV export and its re-reading *)

(** The export is [results_df.to_csv(index=False)]: pandas renders the
    cells as texts and hands the rows to Python's [csv.writer] with the
    default dialect (comma, double quote, doubled quotes, minimal quoting)
    and the line terminator [os.linesep], taken as LF.  Re-reading is
    [pd.read_csv] with its defaults, the reader the script itself uses for
    uploaded files.  The octets of the file are the UTF-8 form of the
    text, in which no octet of a longer sequence is an ASCII character, so
    writer and reader are followed on the code points. *)

Definition DELIMITER : N := 0x2C.
Definition QUOTECHAR : N := 0x22.
Definition LF : N := 0x0A.
Definition CR : N := 0x0D.

Definition EmptyDataError (msg : string) : exn :=
  Exception "EmptyDataError" (lit msg).
Definition ParserError (msg : str) : exn := Exception "ParserError" msg.

(** *** Writing *)

(** [sep.join(fields)] with the delimiter. *)
Fixpoint join_fields (fields : list str) : str :=
  match fields with
  | [] => []
  | [f] => f
  | f :: rest => f ++ DELIMITER :: join_fields rest
  end.

(** A quote inside a quoted field is written twice. *)
Definition double_quotes (s : str) : str :=
  flat_map (λ c, if (c =? QUOTECHAR)%N then [QUOTECHAR; QUOTECHAR] else [c])
    s.

(** [na_rep], the text written for a missing value. *)
Definition na_rep : str := [].

Section CsvWriter.
(** Whether the writer quotes a field for a carriage return in it:
    Python 3.13 and later always do, earlier versions only when the line
    terminator holds one. *)
Variable quotes_cr : bool.
(** [str(x)] of a float, as for [astype_str]. *)
Variable repr_float : float → str.
(** [str(d)] of a probability dict. *)
Variable str_dict : gmap (list N) spec_float → str.
(** The texts written for a column of objects that are not all [str] or
    missing; how pandas types such a column is not spelled out. *)
Variable str_of_column : list pyval → list str.

(** The characters for which minimal quoting puts a field in quotes. *)
Definition needs_quotes (c : N) : bool :=
  ((c =? DELIMITER) || (c =? QUOTECHAR) || (c =? LF)
   || (quotes_cr && (c =? CR)))%N.

Definition write_field (s : str) : str :=
  if existsb needs_quotes s then QUOTECHAR :: double_quotes s ++ [QUOTECHAR]
  else s.

(** [writer.writerow(fields)]: a row of one empty field is written as a
    pair of quotes. *)
Definition writerow (fields : list str) : str :=
  match fields with
  | [[]] => [QUOTECHAR; QUOTECHAR; LF]
  | _ => join_fields (map write_field fields) ++ [LF]
  end.

(** The cells of an object column: a [str] as it is, a missing value as
    [na_rep]. *)
Definition object_cells (cells : list pyval) : list str :=
  if forallb (λ v, isinstance_str v || isna v) cells then
    map (λ v, match v with PStr s => s | _ => na_rep end) cells
  else str_of_column cells.

(** A cell of a float column. *)
Definition float_cell (f : float) : str :=
  if isnan f then na_rep else repr_float f.

(** The cell of a record under a column label, given the text written for
    its [text] entry.  A results frame has no other columns than the four
    keys. *)
Definition cell (t : str) (r : result) (label : str) : str :=
  if bool_decide (label = lit "text") then t
  else if bool_decide (label = lit "predicted_category") then
    predicted_category r
  else if bool_decide (label = lit "confidence") then
    float_cell (confidence r)
  else if bool_decide (label = lit "raw_probabilities") then
    str_dict (raw_probabilities r)
  else na_rep.

(** [df.to_csv(index=False)]: the header row, then one row per record. *)
Definition to_csv_text (df : DataFrame) : str :=
  writerow (df_columns df)
  ++ concat (zip_with (λ t r, writerow (map (cell t r) (df_columns df)))
               (object_cells (map text (df_rows df))) (df_rows df)).

End CsvWriter.

(** *** Reading: the tokenizer *)

(** The states of the C parser's tokenizer that the default dialect
    reaches on data whose lines end with LF. *)
Inductive tokenizer_state :=
| START_RECORD
| START_FIELD
| IN_FIELD
| IN_QUOTED_FIELD
| QUOTE_IN_QUOTED_FIELD.

(** How tokenizing ends: at the end of the data, at the end of the data
    inside a quoted field, or at a carriage return outside quotes, where
    the tokenizer's treatment of CR line ends is not spelled out. *)
Inductive ending := At_end | In_string | At_carriage_return.

Definition add_row (row : list str) (t : list (list str) * ending)
    : list (list str) * ending :=
  (row :: t.1, t.2).

Definition is_whitespace (c : N) : bool := ((c =? 0x20) || (c =? 0x09))%N.

(** Whether the line holds only blanks and tabs up to its LF or the end of
    the data: such a line is skipped like an empty one. *)
Fixpoint whitespace_line (data : str) : bool :=
  match data with
  | [] => true
  | c :: rest =>
      if (c =? LF)%N then true
      else if is_whitespace c then whitespace_line rest
      else false
  end.

(** What the tokenizer does with a character: add it to the field, pass
    over it, end the field, end the field and the line, skip it as part
    of a blank line, or stop at a carriage return. *)
Inductive action :=
| PUSH_CHAR (st : tokenizer_state)
| PASS (st : tokenizer_state)
| END_FIELD
| END_LINE
| SKIP_LINE
| CARRIAGE.

Definition start_field (c : N) : action :=
  if (c =? LF)%N then END_LINE
  else if (c =? CR)%N then CARRIAGE
  else if (c =? QUOTECHAR)%N then PASS IN_QUOTED_FIELD
  else if (c =? DELIMITER)%N then END_FIELD
  else PUSH_CHAR IN_FIELD.

(** The action in a state on the character [c] with [rest] after it.
    Blank lines are skipped ([skip_blank_lines]); a quote opens a quoted
    field only at the start of a field; in a quoted field only a quote is
    special, and two quotes stand for one. *)
Definition step (st : tokenizer_state) (c : N) (rest : str) : action :=
  match st with
  | START_RECORD =>
      if (c =? LF)%N then SKIP_LINE
      else if (c =? CR)%N then CARRIAGE
      else if is_whitespace c && whitespace_line rest then SKIP_LINE
      else start_field c
  | START_FIELD => start_field c
  | IN_FIELD =>
      if (c =? LF)%N then END_LINE
      else if (c =? CR)%N then CARRIAGE
      else if (c =? DELIMITER)%N then END_FIELD
      else PUSH_CHAR IN_FIELD
  | IN_QUOTED_FIELD =>
      if (c =? QUOTECHAR)%N then PASS QUOTE_IN_QUOTED_FIELD
      else PUSH_CHAR IN_QUOTED_FIELD
  | QUOTE_IN_QUOTED_FIELD =>
      if (c =? QUOTECHAR)%N then PUSH_CHAR IN_QUOTED_FIELD
      else if (c =? DELIMITER)%N then END_FIELD
      else if (c =? LF)%N then END_LINE
      else if (c =? CR)%N then CARRIAGE
      else PUSH_CHAR IN_FIELD
  end.

(** The tokenizer from a state, with the field and the row read so far:
    the rows of fields, in order.  At the end of the data an open field
    and row are closed, unless the data end inside a quoted field. *)
Fixpoint tokenize_from (st : tokenizer_state) (field : str)
    (row : list str) (data : str) : list (list str) * ending :=
  match data with
  | [] =>
      match st with
      | START_RECORD => ([], At_end)
      | IN_QUOTED_FIELD => ([], In_string)
      | START_FIELD | IN_FIELD | QUOTE_IN_QUOTED_FIELD =>
          ([row ++ [field]], At_end)
      end
  | c :: rest =>
      match step st c rest with
      | PUSH_CHAR st' => tokenize_from st' (field ++ [c]) row rest
      | PASS st' => tokenize_from st' field row rest
      | END_FIELD => tokenize_from START_FIELD [] (row ++ [field]) rest
      | END_LINE =>
          add_row (row ++ [field]) (tokenize_from START_RECORD [] [] rest)
      | SKIP_LINE => tokenize_from START_RECORD [] [] rest
      | CARRIAGE => ([], At_carriage_return)
      end
  end.

Definition tokenize (data : str) : list (list str) * ending :=
  tokenize_from START_RECORD [] [] data.

(** *** Reading: missing values and column types *)

(** The default [na_values]: the fields read as a missing value. *)
Definition na_values : list str :=
  [[]; lit "#N/A"; lit "#N/A N/A"; lit "#NA"; lit "-1.#IND";
   lit "-1.#QNAN"; lit "-NaN"; lit "-nan"; lit "1.#IND"; lit "1.#QNAN";
   lit "<NA>"; lit "N/A"; lit "NA"; lit "NULL"; lit "NaN"; lit "None";
   lit "n/a"; lit "nan"; lit "null"].

Definition missing (s : str) : bool := bool_decide (s ∈ na_values).

(** The fields read as a boolean. *)
Definition parse_bool (s : str) : option bool :=
  if bool_decide (s ∈ [lit "True"; lit "TRUE"; lit "true"]) then Some true
  else if bool_decide (s ∈ [lit "False"; lit "FALSE"; lit "false"]) then
    Some false
  else None.

Definition is_none {A} (o : option A) : bool :=
  match o with None => true | Some _ => false end.

Section CsvReader.
(** The field as an [int64], and as a [float64], where the parser reads it
    as one. *)
Variable parse_int : str → option Z.
Variable parse_float : str → option float.
(** [pd.read_csv] itself, for the data on which it is not spelled out
    below. *)
Variable pd_read_csv : str → exn + csv_frame.

(** The cells of a column from its fields.  The parser tries the types in
    turn: integers when no field is missing and every field is one, floats
    when every field that is not missing is one, with NaN for a missing
    field, booleans likewise, and otherwise the fields as strings, with
    NaN for a missing field. *)
Definition convert_column (fields : list str) : list pyval :=
  match mapM (λ s, if missing s then None else PInt <$> parse_int s)
          fields with
  | Some ints => ints
  | None =>
  match mapM (λ s, if missing s then Some (PFloat S754_nan)
                   else PFloat <$> parse_float s) fields with
  | Some floats => floats
  | None =>
  match mapM (λ s, if missing s then Some (PFloat S754_nan)
                   else PBool <$> parse_bool s) fields with
  | Some bools => bools
  | None => map (λ s, if missing s then PFloat S754_nan else PStr s) fields
  end end end.

(** [pd.read_csv(io.StringIO(data))].  The first row is the header.  The
    frame is spelled out for data without U+0000 (a field is a C string
    in the parser) and without a leading byte order mark, whose header
    names are distinct and not empty and whose rows are as long as the
    header; other data are left to [pd_read_csv]. *)
Definition read_csv_text (data : str) : exn + csv_frame :=
  match tokenize data with
  | (rows, At_end) =>
      match rows with
      | [] => inl (EmptyDataError "No columns to parse from file")
      | header :: records =>
          if bool_decide ((0%N ∉ data) ∧ (head data ≠ Some 0xFEFF%N)
                          ∧ NoDup header ∧ ([] ∉ header)
                          ∧ Forall (λ record, length record = length header)
                              records)
          then
            inr (imap (λ i label,
                         (label,
                          convert_column
                            (map (λ record, default [] (record !! i))
                               records)))
                   header)
          else pd_read_csv data
      end
  | (rows, In_string) =>
      inl (ParserError
             (lit "Error tokenizing data. C error: EOF inside string starting at row "
                ++ str_of_nat (length rows)))
  | (_, At_carriage_return) => pd_read_csv data
  end.

(** *** What the round trip needs of a record *)

(** A field that cannot break a row: no U+0000, and no carriage return
    where the writer does not quote it. *)
Definition clean (quotes_cr : bool) (s : str) : bool :=
  negb (bool_decide (0%N ∈ s))
  && (quotes_cr || negb (bool_decide (CR ∈ s))).

(** A field the reader keeps as the string it is: not a missing value,
    not a number, not a boolean. *)
Definition reads_as_text (s : str) : bool :=
  negb (missing s) && is_none (parse_int s) && is_none (parse_float s)
  && is_none (parse_bool s).

(** A field the reader takes for a float and not for an integer. *)
Definition reads_as_float (s : str) : bool :=
  negb (missing s) && is_none (parse_int s) && negb (is_none (parse_float s)).

(** The confidence as it is read back from its written form. *)
Definition read_back (repr_float : float → str) (c : float) : float :=
  if isnan c then S754_nan
  else default S754_nan (parse_float (repr_float c)).

(** A record whose text is a [str], whose text and category are read back
    as strings, whose confidence is read back as a float and whose
    fields cannot break the row. *)
Definition reads_back (quotes_cr : bool) (repr_float : float → str)
    (str_dict : gmap (list N) spec_float → str) (r : result) : bool :=
  match text r with
  | PStr t => clean quotes_cr t && reads_as_text t
  | _ => false
  end
  && clean quotes_cr (predicted_category r)
  && reads_as_text (predicted_category r)
  && (isnan (confidence r)
      || clean quotes_cr (repr_float (confidence r))
         && reads_as_float (repr_float (confidence r)))
  && clean quotes_cr (str_dict (raw_probabilities r)).

End CsvReader.

(** *** A writer and a reader for the examples *)

Module DemoCsv.

(** [repr] of the floats of the examples. *)
Definition repr_float (f : float) : str :=
  match f with
  | S754_zero false => lit "0.0"
  | S754_finite false 4503599627370496 (-54) => lit "0.25"
  | S754_finite false 4503599627370496 (-53) => lit "0.5"
  | S754_finite false 6755399441055744 (-53) => lit "0.75"
  | S754_finite false 4503599627370496 (-52) => lit "1.0"
  | _ => lit "nan"
  end.

(** The numerals of the examples as floats. *)
Definition parse_float (s : str) : option float :=
  if bool_decide (s = lit "0.0") then Some float_zero
  else if bool_decide (s = lit "0.25") then Some Demo.quarter
  else if bool_decide (s = lit "0.5") then Some Demo.half
  else if bool_decide (s = lit "0.75") then Some Demo.three_quarters
  else if bool_decide (s = lit "1.0") then Some Demo.one
  else None.

(** Unsigned decimal numerals as integers. *)
Definition parse_int (s : str) : option Z :=
  if forallb (λ c, (0x30 <=? c) && (c <=? 0x39))%N s && negb (is_none (head s))
  then Some (fold_left (λ z c, 10 * z + Z.of_N (c - 0x30)) s 0)%Z
  else None.

(** [str(d)] of the probability dicts of the two-class classifier. *)
Definition str_dict (d : gmap (list N) spec_float) : str :=
  if bool_decide (d = ∅) then lit "{}"
  else lit "{'World': "
         ++ repr_float (default S754_nan (d !! lit "World"))
         ++ lit ", 'Sports': "
         ++ repr_float (default S754_nan (d !! lit "Sports"))
         ++ lit "}".

(** The examples have [str] texts only and stay within the data on which
    the reader is spelled out. *)
Definition str_of_column (cells : list pyval) : list str :=
  map (λ _, []) cells.
Definition pd_read_csv (data : str) : exn + csv_frame := inr [].

Definition to_csv : DataFrame → str :=
  to_csv_text false repr_float str_dict str_of_column.
Definition read_csv : str → exn + csv_frame :=
  read_csv_text parse_int parse_float pd_read_csv.

(** Two classified texts, the second with a comma, quotes and a line
    break in it. *)
Definition results : list result :=
  [Result (PStr (lit "abc")) (lit "Sports") Demo.three_quarters
     (<[lit "World" := Demo.quarter]>
        (<[lit "Sports" := Demo.three_quarters]> ∅));
   Result (PStr (lit "Rates, " ++ [QUOTECHAR] ++ lit "prices" ++ [QUOTECHAR]
                 ++ lit " and" ++ [LF] ++ lit " yields"))
     (lit "World") Demo.three_quarters
     (<[lit "World" := Demo.three_quarters]>
        (<[lit "Sports" := Demo.quarter]> ∅))].

End DemoCsv.

(** * Properties *)

(** ** The order of floats *)

Ltac order_cases :=
  repeat match goal with
  | |- context [(?a ?= ?b)%Z] => destruct (Z.compare_spec a b)
  | |- context [(?a ?= ?b)%positive] => destruct (Pos.compare_spec a b)
  end.

(** Case analysis on the shape and sign of the floats in the goal, down to
    comparisons of exponents and mantissas. *)
Ltac float_cases :=
  unfold float_ge, SFltb, SFleb, SFcompare;
  change PosDef.Pos.compare_cont with Pos.compare_cont;
  change (Pos.compare_cont Eq) with Pos.compare;
  order_cases; simpl; intros; try done; try lia.

Lemma SFleb_refl x : isnan x = false → SFleb x x = true.
Proof.
  destruct x as [s|s| |s m e]; try destruct s; intros H; try done;
    unfold SFleb, SFcompare; rewrite Z.compare_refl;
    change (PosDef.Pos.compare_cont Eq m m) with (m ?= m)%positive;
    by rewrite Pos.compare_refl.
Qed.

Lemma SFleb_total x y :
  isnan x = false → isnan y = false → SFltb x y = false → SFleb y x = true.
Proof.
  destruct x as [s1|s1| |s1 m1 e1], y as [s2|s2| |s2 m2 e2];
    try destruct s1; try destruct s2; intros Hx Hy; try done; float_cases.
Qed.

Lemma SFleb_trans x y z :
  SFleb x y = true → SFleb y z = true → SFleb x z = true.
Proof.
  destruct x as [s1|s1| |s1 m1 e1], y as [s2|s2| |s2 m2 e2],
    z as [s3|s3| |s3 m3 e3];
    try destruct s1; try destruct s2; try destruct s3; try done; float_cases.
Qed.

Lemma SFltb_leb x y : SFltb x y = true → SFleb x y = true.
Proof. unfold SFltb, SFleb. by destruct (SFcompare x y) as [[]|]. Qed.

Lemma SFltb_not_leb x y : SFltb x y = true → SFleb y x = false.
Proof.
  destruct x as [s1|s1| |s1 m1 e1], y as [s2|s2| |s2 m2 e2];
    try destruct s1; try destruct s2; try done; float_cases.
Qed.

Lemma SFleb_not_nan x y : SFleb x y = true → isnan y = false.
Proof. by destruct x as [[]|[]| |[]], y as [[]|[]| |[]]. Qed.

(** ** [torch.argmax] returns the position of a greatest entry *)

Lemma greater_or_nan_ltb a b :
  isnan a = false → greater_or_nan a b = SFltb b a.
Proof. unfold greater_or_nan. by intros ->. Qed.

Lemma argmax_from_spec xs : ∀ best_idx best i,
  isnan best = false →
  Forall (λ x, isnan x = false) xs →
  (argmax_from best_idx best i xs = best_idx
   ∧ Forall (λ x, SFleb x best = true) xs)
  ∨ (∃ j x, argmax_from best_idx best i xs = i + j
       ∧ xs !! j = Some x ∧ SFleb best x = true
       ∧ Forall (λ y, SFleb y x = true) xs).
Proof.
  induction xs as [|x xs IH]; intros best_idx best i Hbest Hxs.
  { left. by split. }
  apply Forall_cons in Hxs as [Hx Hxs]. simpl.
  rewrite greater_or_nan_ltb by done.
  destruct (SFltb best x) eqn:Hlt.
  - right. destruct (IH i x (S i) Hx Hxs) as [[-> Hall]|(j & y & -> & Hj & Hle & Hall)].
    + exists 0, x. rewrite Nat.add_0_r. repeat split; [by apply SFltb_leb|].
      constructor; [by apply SFleb_refl | done].
    + exists (S j), y. replace (i + S j) with (S i + j) by lia.
      repeat split; [done| |].
      * eapply SFleb_trans; [by apply SFltb_leb | done].
      * by constructor.
  - assert (SFleb x best = true) as Hxb by by apply SFleb_total.
    destruct (IH best_idx best (S i) Hbest Hxs)
      as [[-> Hall]|(j & y & -> & Hj & Hle & Hall)].
    + left. split; [done | by constructor].
    + right. exists (S j), y. replace (i + S j) with (S i + j) by lia.
      repeat split; [done..|].
      constructor; [by eapply SFleb_trans | done].
Qed.

Lemma argmax_spec xs k :
  Forall (λ x, isnan x = false) xs →
  argmax xs = inr k →
  ∃ p, xs !! k = Some p ∧ Forall (λ x, SFleb x p = true) xs.
Proof.
  destruct xs as [|x xs]; [done|]. intros [Hx Hxs]%Forall_cons [= <-].
  destruct (argmax_from_spec xs 0 x 1 Hx Hxs)
    as [[-> Hall]|(j & y & -> & Hj & Hle & Hall)].
  - exists x. split; [done|]. constructor; [by apply SFleb_refl | done].
  - exists y. split; [done|]. by constructor.
Qed.

Lemma argmax_from_lt xs : ∀ best_idx best i,
  best_idx < i → argmax_from best_idx best i xs < i + length xs.
Proof.
  induction xs as [|x xs IH]; intros best_idx best i Hlt; simpl; [lia|].
  destruct (greater_or_nan x best).
  - specialize (IH i x (S i)). lia.
  - specialize (IH best_idx best (S i)). lia.
Qed.

(** A non-empty row has an arg-max inside the row. *)
Lemma argmax_nonempty x xs :
  ∃ k p, argmax (x :: xs) = inr k ∧ (x :: xs) !! k = Some p.
Proof.
  exists (argmax_from 0 x 1 xs).
  pose proof (argmax_from_lt xs 0 x 1 ltac:(lia)) as Hlt.
  destruct (lookup_lt_is_Some_2 (x :: xs) (argmax_from 0 x 1 xs)) as [p Hp];
    [simpl; lia|].
  by exists p.
Qed.

(** ** The prediction wrapper *)

Section PredictFacts.
Context {encoding : Type}.
Variable loaded_tokenizer : str → encoding.
Variable loaded_model : encoding → exn + list float.
Variable softmax : list float → list float.
Variable id_to_label_map : gmap nat (list N).

Local Abbreviation record_for :=
  (record_for loaded_tokenizer loaded_model softmax id_to_label_map).
Local Abbreviation classify :=
  (classify loaded_tokenizer loaded_model softmax id_to_label_map).
Local Abbreviation predict_loop :=
  (predict_loop loaded_tokenizer loaded_model softmax id_to_label_map).
Local Abbreviation predict_category :=
  (predict_category loaded_tokenizer loaded_model softmax id_to_label_map).
Local Abbreviation records_for :=
  (records_for loaded_tokenizer loaded_model softmax id_to_label_map).
Local Abbreviation probabilities_of :=
  (probabilities_of loaded_tokenizer loaded_model softmax).
Local Abbreviation label_or_L := (label_or_L id_to_label_map).
Local Abbreviation dict_of_enumerate := (dict_of_enumerate id_to_label_map).

(** *** The loop against the per-entry records *)

Lemma predict_loop_records text_list : ∀ results,
  predict_loop results text_list =
    match records_for text_list with
    | inl e => inl e
    | inr rs => inr (results ++ rs)
    end.
Proof.
  induction text_list as [|t rest IH]; intros results; simpl.
  { by rewrite app_nil_r. }
  destruct (record_for t) as [e|r]; [done|].
  rewrite IH. destruct (records_for rest) as [e|rs]; [done|].
  by rewrite <-app_assoc.
Qed.

Lemma predict_category_records text_list :
  predict_category text_list = records_for text_list.
Proof.
  unfold predict_category. destruct text_list as [|t rest]; [done|].
  cbn [truthy negb]. rewrite predict_loop_records.
  by destruct (records_for (t :: rest)).
Qed.

Lemma records_for_app l1 l2 :
  records_for (l1 ++ l2) =
    match records_for l1 with
    | inl e => inl e
    | inr rs1 =>
        match records_for l2 with
        | inl e => inl e
        | inr rs2 => inr (rs1 ++ rs2)
        end
    end.
Proof.
  induction l1 as [|t l1 IH]; simpl.
  { by destruct (records_for l2). }
  destruct (record_for t) as [e|r]; [done|]. rewrite IH.
  destruct (records_for l1) as [e|rs1]; [done|].
  by destruct (records_for l2).
Qed.

Lemma records_for_inr text_list : ∀ results,
  records_for text_list = inr results →
  Forall2 (λ t r, record_for t = inr r) text_list results.
Proof.
  induction text_list as [|t rest IH]; intros results; simpl.
  { intros [= <-]. constructor. }
  destruct (record_for t) as [e|r] eqn:Hr; [done|].
  destruct (records_for rest) as [e|rs]; [done|].
  intros [= <-]. constructor; [done | by apply IH].
Qed.

Lemma records_for_inl text_list e :
  records_for text_list = inl e →
  ∃ j t, text_list !! j = Some t ∧ record_for t = inl e.
Proof.
  induction text_list as [|t rest IH]; simpl; [done|].
  destruct (record_for t) as [e'|r] eqn:Hr.
  { intros [= <-]. by exists 0, t. }
  destruct (records_for rest) as [e'|rs]; [|done].
  intros [= <-]. destruct IH as (j & t' & Hj & Ht'); [done|].
  by exists (S j), t'.
Qed.

Lemma records_for_total text_list :
  (∀ t, t ∈ text_list → ∃ r, record_for t = inr r) →
  ∃ results, records_for text_list = inr results.
Proof.
  induction text_list as [|t rest IH]; intros Hok; simpl; [by eexists|].
  destruct (Hok t) as [r ->]; [by left|].
  destruct IH as [rs ->]; [|by eexists].
  intros t' Ht'. apply Hok. by right.
Qed.

(** *** The loop body *)

Lemma invalid_or_empty_spec t :
  invalid_or_empty t = true ↔ ∀ s, t = PStr s → strip s = [].
Proof.
  destruct t as [s| | | |]; simpl; try (split; [intros _ s' [=]|done]).
  split.
  - intros H s' [= <-]. by destruct (strip s).
  - intros H. by rewrite (H s eq_refl).
Qed.

Lemma record_for_invalid t :
  (∀ s, t = PStr s → strip s = []) → record_for t = inr (sentinel t).
Proof.
  intros H%invalid_or_empty_spec. unfold record_for. by rewrite H.
Qed.

Lemma record_for_valid s :
  strip s ≠ [] → record_for (PStr s) = classify s.
Proof.
  intros H. unfold record_for. simpl. by destruct (strip s).
Qed.

Lemma classify_text s r : classify s = inr r → text r = PStr s.
Proof.
  unfold classify. destruct (loaded_model _) as [e|logits]; [done|].
  destruct (argmax _) as [e|k]; [done|].
  destruct (_ !! k); [|done]. by intros [= <-].
Qed.

Lemma record_for_text t r : record_for t = inr r → text r = t.
Proof.
  unfold record_for. destruct (invalid_or_empty t).
  { by intros [= <-]. }
  destruct t; try by intros [= <-]. apply classify_text.
Qed.

(** The model answering with at least one class is all [classify]
    needs. *)
Lemma classify_total s p ps :
  probabilities_of s = inr (p :: ps) → ∃ r, classify s = inr r.
Proof.
  unfold probabilities_of, classify.
  destruct (loaded_model _) as [e|logits]; [done|]. intros [= ->].
  destruct (argmax_nonempty p ps) as (k & q & -> & ->). by eexists.
Qed.

Lemma classify_inv s r :
  classify s = inr r →
  ∃ probabilities k,
    probabilities_of s = inr probabilities
    ∧ argmax probabilities = inr k
    ∧ probabilities !! k = Some (confidence r)
    ∧ predicted_category r = default (lit "Unknown") (id_to_label_map !! k)
    ∧ raw_probabilities r = dict_of_enumerate ∅ 0 probabilities.
Proof.
  unfold probabilities_of, classify.
  destruct (loaded_model _) as [e|logits]; [done|].
  destruct (argmax _) as [e|k] eqn:Hk; [done|].
  destruct (_ !! k) as [p|] eqn:Hp; [|done]. intros [= <-].
  by exists (softmax logits), k.
Qed.

(** *** The dictionary of class probabilities *)

Lemma dict_of_enumerate_other row : ∀ d i k,
  k ∉ label_or_L <$> seq i (length row) →
  dict_of_enumerate d i row !! k = d !! k.
Proof.
  induction row as [|p row IH]; intros d i k Hk; simpl in *; [done|].
  apply not_elem_of_cons in Hk as [Hne Hk].
  rewrite IH by done. by rewrite lookup_insert_ne.
Qed.

Lemma dict_of_enumerate_lookup row : ∀ d i j p,
  NoDup (label_or_L <$> seq i (length row)) →
  row !! j = Some p →
  dict_of_enumerate d i row !! label_or_L (i + j) = Some p.
Proof.
  induction row as [|q row IH]; intros d i j p Hnd Hj; [done|].
  simpl in *. apply NoDup_cons in Hnd as [Hnotin Hnd].
  destruct j as [|j]; simpl in Hj.
  - injection Hj as ->. rewrite Nat.add_0_r.
    rewrite dict_of_enumerate_other by done. by rewrite lookup_insert_eq.
  - replace (i + S j) with (S i + j) by lia. by apply IH.
Qed.

Lemma dict_of_enumerate_inv row : ∀ d i k p,
  dict_of_enumerate d i row !! k = Some p →
  d !! k = Some p ∨ ∃ j, row !! j = Some p ∧ k = label_or_L (i + j).
Proof.
  induction row as [|q row IH]; intros d i k p Hk; simpl in *; [by left|].
  apply IH in Hk as [Hk|(j & Hj & ->)].
  - destruct (decide (label_or_L i = k)) as [<-|Hne].
    + rewrite lookup_insert_eq in Hk. injection Hk as ->.
      right. exists 0. by rewrite Nat.add_0_r.
    + rewrite lookup_insert_ne in Hk by done. by left.
  - right. exists (S j). split; [done|]. f_equal. lia.
Qed.

(** A label map that names every class index, each with a name of its
    own, gives the classes pairwise different keys. *)
Lemma label_keys_NoDup n :
  (∀ j, j < n → is_Some (id_to_label_map !! j)) →
  (∀ j k l, id_to_label_map !! j = Some l →
            id_to_label_map !! k = Some l → j = k) →
  NoDup (label_or_L <$> seq 0 n).
Proof.
  intros Htotal Hinj. apply NoDup_fmap_2_strong; [|apply NoDup_seq].
  intros j k Hj%elem_of_seq Hk%elem_of_seq Heq.
  destruct (Htotal j) as [lj Hlj]; [lia|].
  destruct (Htotal k) as [lk Hlk]; [lia|].
  unfold label_or_L in Heq. rewrite Hlj, Hlk in Heq. simpl in Heq.
  subst lk. by eapply Hinj.
Qed.

(** *** The claims on [predict_category] *)

(** C1.  When the model answers every proper text of the list with at
    least one class probability, [predict_category] returns a list of
    the length of its input whose entry at each position is the record
    of the loop body for the text at that position, and that record
    carries the text. *)
Theorem predict_category_length_and_order (text_list : list pyval) :
  (∀ s, PStr s ∈ text_list → strip s ≠ [] →
        ∃ p ps, probabilities_of s = inr (p :: ps)) →
  ∃ results,
    predict_category text_list = inr results
    ∧ length results = length text_list
    ∧ ∀ i t, text_list !! i = Some t →
        ∃ r, results !! i = Some r ∧ record_for t = inr r ∧ text r = t.
Proof.
  intros Hmodel. rewrite predict_category_records.
  destruct (records_for_total text_list) as [results Hres].
  { intros t Ht. destruct (decide (invalid_or_empty t = true)) as [Hinv|Hval].
    - exists (sentinel t). by apply record_for_invalid, invalid_or_empty_spec.
    - unfold record_for. destruct (invalid_or_empty t) eqn:Hg; [done|].
      destruct t as [s| | | |]; try by eexists.
      assert (strip s ≠ []) as Hs.
      { simpl in Hg. by destruct (strip s). }
      destruct (Hmodel s Ht Hs) as (p & ps & Hp).
      by eapply classify_total. }
  exists results. split; [done|].
  apply records_for_inr in Hres. split.
  { symmetry. by eapply Forall2_length. }
  intros i t Hi.
  destruct (Forall2_lookup_l _ _ _ _ _ Hres Hi) as (r & Hr & Hrec).
  exists r. repeat split; [done..|]. by eapply record_for_text.
Qed.

(** C2.  An entry that is not a string, or whose stripped form is empty,
    gets the record with category "Invalid/Empty", confidence 0.0 and no
    probabilities: the loop body returns it without an exception, a
    returned result list holds it at the entry's position, and an
    exception of the call comes from another entry, a proper text the
    model failed on. *)
Theorem invalid_entry_gets_sentinel (text_list : list pyval) i t :
  text_list !! i = Some t →
  (∀ s, t = PStr s → strip s = []) →
  let invalid := Result t (lit "Invalid/Empty") (S754_zero false) ∅ in
  record_for t = inr invalid
  ∧ (∀ results, predict_category text_list = inr results →
                results !! i = Some invalid)
  ∧ (∀ e, predict_category text_list = inl e →
          ∃ j s, j ≠ i ∧ text_list !! j = Some (PStr s)
                 ∧ strip s ≠ [] ∧ classify s = inl e).
Proof.
  intros Hi Ht invalid.
  pose proof (record_for_invalid t Ht) as Hrec. split; [done|]. split.
  - intros results Hres. rewrite predict_category_records in Hres.
    apply records_for_inr in Hres.
    destruct (Forall2_lookup_l _ _ _ _ _ Hres Hi) as (r & Hr & Hrec').
    rewrite Hrec in Hrec'. by injection Hrec' as <-.
  - intros e He. rewrite predict_category_records in He.
    apply records_for_inl in He as (j & t' & Hj & He).
    assert (j ≠ i) as Hne.
    { intros ->. rewrite Hi in Hj. injection Hj as <-. by rewrite Hrec in He. }
    unfold record_for in He. destruct (invalid_or_empty t') eqn:Hg; [done|].
    destruct t' as [s| | | |]; try done.
    exists j, s. repeat split; [done..| |done].
    simpl in Hg. by destruct (strip s).
Qed.

(** C4.  With a label map that names every class index with a name of
    its own and class probabilities that are numbers, the confidence of
    the record of a proper text is the greatest of the probabilities
    stored in [raw_probabilities]: it is stored there, nothing stored
    exceeds it, and what is stored are the class probabilities. *)
Theorem confidence_is_max_probability (text_list : list pyval)
    results i s r probabilities :
  predict_category text_list = inr results →
  text_list !! i = Some (PStr s) →
  strip s ≠ [] →
  results !! i = Some r →
  probabilities_of s = inr probabilities →
  Forall (λ p, isnan p = false) probabilities →
  (∀ j, j < length probabilities → is_Some (id_to_label_map !! j)) →
  (∀ j k l, id_to_label_map !! j = Some l →
            id_to_label_map !! k = Some l → j = k) →
  (∃ label, raw_probabilities r !! label = Some (confidence r))
  ∧ (∀ label p, raw_probabilities r !! label = Some p →
                SFleb p (confidence r) = true)
  ∧ (∀ label p, raw_probabilities r !! label = Some p ↔
                ∃ j, probabilities !! j = Some p ∧ label = label_or_L j).
Proof.
  intros Hres Hi Hs Hr Hprobs Hnum Htotal Hinj.
  rewrite predict_category_records in Hres.
  apply records_for_inr in Hres.
  destruct (Forall2_lookup_l _ _ _ _ _ Hres Hi) as (r' & Hr' & Hrec).
  rewrite Hr in Hr'. injection Hr' as <-.
  rewrite record_for_valid in Hrec by done.
  apply classify_inv in Hrec as (probs & k & Hprobs' & Hk & Hconf & _ & Hraw).
  rewrite Hprobs in Hprobs'. injection Hprobs' as <-.
  pose proof (label_keys_NoDup _ Htotal Hinj) as Hnd.
  destruct (argmax_spec _ _ Hnum Hk) as (p & Hp & Hmax).
  rewrite Hconf in Hp. injection Hp as <-.
  assert (∀ label p, raw_probabilities r !! label = Some p ↔
            ∃ j, probabilities !! j = Some p ∧ label = label_or_L j) as Hstored.
  { intros label p. rewrite Hraw. split.
    - intros [Hempty|(j & Hj & ->)]%dict_of_enumerate_inv; [done|].
      by exists j.
    - intros (j & Hj & ->).
      by apply (dict_of_enumerate_lookup probabilities ∅ 0 j p). }
  split; [|split; [|done]].
  - exists (label_or_L k). apply Hstored. by exists k.
  - intros label p [j [Hj _]]%Hstored.
    by apply (Forall_lookup_1 _ _ _ _ Hmax Hj).
Qed.

End PredictFacts.

(** The three claims on the example classifier. *)

Lemma demo_model_answers s :
  ∃ p ps, probabilities_of Demo.tokenizer Demo.model Demo.softmax s
          = inr (p :: ps).
Proof.
  unfold probabilities_of, Demo.model, Demo.softmax.
  destruct (Demo.tokenizer s <? 5); by eexists _, _.
Defined.

Lemma predict_category_length_and_order_witness :
  ∃ results,
    Demo.predict Demo.texts = inr results
    ∧ length results = length Demo.texts
    ∧ ∀ i t, Demo.texts !! i = Some t →
        ∃ r, results !! i = Some r
             ∧ record_for Demo.tokenizer Demo.model Demo.softmax Demo.labels t
               = inr r
             ∧ text r = t.
Proof.
  apply (predict_category_length_and_order
           Demo.tokenizer Demo.model Demo.softmax Demo.labels Demo.texts).
  intros s _ _. apply demo_model_answers.
Defined.

Lemma invalid_entry_gets_sentinel_witness :
  let t := PStr (lit "  ") in
  let invalid := Result t (lit "Invalid/Empty") (S754_zero false) ∅ in
  record_for Demo.tokenizer Demo.model Demo.softmax Demo.labels t = inr invalid
  ∧ (∀ results, Demo.predict Demo.texts = inr results →
                results !! 1 = Some invalid)
  ∧ (∀ e, Demo.predict Demo.texts = inl e →
          ∃ j s, j ≠ 1 ∧ Demo.texts !! j = Some (PStr s) ∧ strip s ≠ []
                 ∧ classify Demo.tokenizer Demo.model Demo.softmax
                     Demo.labels s = inl e).
Proof.
  apply (invalid_entry_gets_sentinel
           Demo.tokenizer Demo.model Demo.softmax Demo.labels
           Demo.texts 1 (PStr (lit "  "))).
  - reflexivity.
  - intros s [= <-]. reflexivity.
Defined.

Lemma demo_labels_lookup j :
  Demo.labels !! j =
    if decide (j = 0) then Some (lit "World")
    else if decide (j = 1) then Some (lit "Sports") else None.
Proof.
  unfold Demo.labels. rewrite !lookup_insert, lookup_empty.
  repeat case_decide; try done; lia.
Defined.

Lemma demo_labels_inj j k l :
  Demo.labels !! j = Some l → Demo.labels !! k = Some l → j = k.
Proof.
  rewrite !demo_labels_lookup.
  repeat case_decide; intros Hj Hk; try congruence;
    rewrite <-Hk in Hj; by vm_compute in Hj.
Defined.

Lemma confidence_is_max_probability_witness :
  Demo.predict Demo.texts = inr Demo.results
  ∧ ∃ r, Demo.results !! 0 = Some r
      ∧ (∃ label, raw_probabilities r !! label = Some (confidence r))
      ∧ (∀ label p, raw_probabilities r !! label = Some p →
                    SFleb p (confidence r) = true).
Proof.
  split; [by vm_compute|].
  eexists. split; [reflexivity|].
  destruct (confidence_is_max_probability
              Demo.tokenizer Demo.model Demo.softmax Demo.labels
              Demo.texts Demo.results 0 (lit "abc")
              (Result (PStr (lit "abc")) (lit "Sports") Demo.three_quarters
                 (<[lit "World" := Demo.quarter]>
                    (<[lit "Sports" := Demo.three_quarters]> ∅)))
              [Demo.quarter; Demo.three_quarters])
    as (Hstored & Hmax & _).
  - by vm_compute.
  - reflexivity.
  - by vm_compute.
  - reflexivity.
  - reflexivity.
  - repeat constructor.
  - intros j Hj. rewrite demo_labels_lookup.
    destruct j as [|[|j]]; [by eexists..|simpl in Hj; lia].
  - apply demo_labels_inj.
  - split; [exact Hstored | exact Hmax].
Defined.

(** ** [np.array_split] *)

Section ArraySplit.
Context {A : Type}.

Lemma cumsum_from_nth (l : list nat) : ∀ acc i,
  i < length l →
  nth i (cumsum_from acc l) 0 = acc + sum_list (take (S i) l).
Proof.
  induction l as [|x l IH]; intros acc i Hi; simpl in *; [lia|].
  destruct i as [|i]; [rewrite take_0; simpl; lia|].
  rewrite IH by lia. simpl. lia.
Qed.

(** The division points are the sums of the leading section sizes. *)
Lemma div_points_nth (sizes : list nat) i :
  i ≤ length sizes →
  nth i (cumsum ([0] ++ sizes)) 0 = sum_list (take i sizes).
Proof.
  intros Hi. unfold cumsum. simpl. destruct i as [|i]; [by rewrite take_0|].
  by rewrite cumsum_from_nth by lia.
Qed.

Lemma sum_list_take_S (sizes : list nat) n x :
  sizes !! n = Some x →
  sum_list (take (S n) sizes) = sum_list (take n sizes) + x.
Proof.
  intros Hn. rewrite (take_S_r _ _ _ Hn), sum_list_with_app. simpl. lia.
Qed.

(** Consecutive slices along the division points make up a leading
    segment of the list. *)
Lemma slices_concat (l : list A) (sizes : list nat) n :
  n ≤ length sizes →
  concat (map (λ i, slice (sum_list (take i sizes))
                      (sum_list (take (S i) sizes)) l) (seq 0 n))
  = take (sum_list (take n sizes)) l.
Proof.
  induction n as [|n IH]; intros Hn.
  { by rewrite take_0. }
  rewrite seq_S, map_app, concat_app, IH by lia. simpl.
  destruct (lookup_lt_is_Some_2 sizes n) as [x Hx]; [lia|].
  rewrite (sum_list_take_S _ _ _ Hx), app_nil_r. unfold slice.
  replace (sum_list (take n sizes) + x - sum_list (take n sizes)) with x
    by lia.
  apply take_take_drop.
Qed.

(** With at least one section, [np.array_split] returns that many
    sections, and they make up the array in order. *)
Lemma array_split_concat (sary : list A) Nsections :
  Nsections ≠ 0 →
  ∃ chunks,
    array_split sary Nsections = inr chunks
    ∧ length chunks = Nsections
    ∧ concat chunks = sary.
Proof.
  intros HN. unfold array_split.
  destruct (Nat.eqb_spec Nsections 0) as [|_]; [done|].
  eexists. split; [reflexivity|]. split.
  { by rewrite length_map, length_seq. }
  set (q := length sary / Nsections).
  set (extras := length sary mod Nsections).
  set (sizes := replicate extras (q + 1) ++ replicate (Nsections - extras) q).
  assert (extras < Nsections) as Hextras by by apply Nat.mod_upper_bound.
  assert (length sizes = Nsections) as Hlen.
  { unfold sizes. rewrite length_app, !length_replicate. lia. }
  rewrite (map_ext_in _
    (λ i, slice (sum_list (take i sizes)) (sum_list (take (S i) sizes)) sary)).
  2:{ intros i [_ Hi]%in_seq. by rewrite !div_points_nth by lia. }
  rewrite slices_concat by lia.
  rewrite <-Hlen, firstn_all. apply take_ge.
  unfold sizes. rewrite sum_list_with_app, !sum_list_replicate.
  pose proof (Nat.div_mod (length sary) Nsections HN) as Hdiv.
  fold q extras in Hdiv. nia.
Qed.

End ArraySplit.

(** A string that does not end with U+0000 comes back from the array as
    it went in. *)
Lemma np_item_id (s : str) : last s ≠ Some 0%N → np_item s = s.
Proof.
  intros Hlast. unfold np_item, rstrip_with.
  destruct (rev s) as [|c r] eqn:Hrev; cbn [lstrip_with].
  { by rewrite <-(rev_involutive s), Hrev. }
  destruct (N.eqb_spec 0 c) as [<-|_].
  - exfalso. apply Hlast.
    rewrite <-(rev_involutive s), Hrev. cbn [rev]. apply last_snoc.
  - by rewrite <-Hrev, rev_involutive.
Qed.

Lemma np_asarray_id (texts : list str) :
  Forall (λ t, last t ≠ Some 0%N) texts → np_asarray texts = texts.
Proof.
  unfold np_asarray. induction 1 as [|t texts Ht _ IH]; simpl; [done|].
  by rewrite np_item_id, IH.
Qed.

(** ** The batch of the second tab *)

Section BatchFacts.
Context {encoding : Type}.
Variable loaded_tokenizer : str → encoding.
Variable loaded_model : encoding → exn + list float.
Variable softmax : list float → list float.
Variable id_to_label_map : gmap nat (list N).

Local Abbreviation predict_category :=
  (predict_category loaded_tokenizer loaded_model softmax id_to_label_map).
Local Abbreviation records_for :=
  (records_for loaded_tokenizer loaded_model softmax id_to_label_map).
Local Abbreviation run_chunks :=
  (chunk_loop loaded_tokenizer loaded_model softmax id_to_label_map).
Local Abbreviation run_batch :=
  (batch_results loaded_tokenizer loaded_model softmax id_to_label_map).

(** The chunk loop ends as the per-entry records of all chunks in a row
    do, with the records added to the accumulator. *)
Lemma chunk_loop_outcome num_chunks ntexts chunks : ∀ i results w,
  (run_chunks num_chunks ntexts i results chunks w).1 =
    outcome_of
      match records_for (concat (map (map PStr) chunks)) with
      | inl e => inl e
      | inr rs => inr (results ++ rs)
      end.
Proof.
  induction chunks as [|text_chunk rest IH]; intros i results w.
  { simpl. by rewrite app_nil_r. }
  cbn [chunk_loop map concat].
  rewrite records_for_app.
  unfold mbind, app_bind, call_predict_category at 1.
  rewrite predict_category_records.
  destruct (records_for (map PStr text_chunk)) as [e|rs]; [done|].
  cbn [lift mret app_ret render]. rewrite IH.
  destruct (records_for _) as [e|rs']; [done|].
  by rewrite app_assoc.
Qed.

(** The batch ends as one call of [predict_category] on the texts as they
    come back from the array does. *)
Lemma batch_results_outcome (texts : list str) w :
  (run_batch texts w).1 =
    outcome_of (predict_category (map PStr (np_asarray texts))).
Proof.
  unfold batch_results.
  destruct (array_split_concat (np_asarray texts)
              (max 1 (length texts / 10))) as (chunks & Hsplit & _ & Hcat);
    [lia|].
  unfold mbind, app_bind at 1. rewrite Hsplit. cbn [lift mret app_ret].
  rewrite chunk_loop_outcome, <-concat_map, Hcat, predict_category_records.
  by destruct (records_for _).
Qed.

(** X20.  Chunk boundaries never change a result: for texts none of
    which ends with U+0000, predicting the chunks of [np.array_split] one
    after the other and joining the results ends as one call of
    [predict_category] on the whole list does, with the same result list
    or with the same exception. *)
Theorem chunked_batch_is_whole_batch (texts : list str) w :
  Forall (λ t, last t ≠ Some 0%N) texts →
  (run_batch texts w).1 = outcome_of (predict_category (map PStr texts)).
Proof.
  intros Hnul. by rewrite batch_results_outcome, np_asarray_id.
Qed.

End BatchFacts.

(** Twenty-five texts are split in two chunks, of thirteen and twelve. *)
Lemma array_split_25 :
  array_split (seq 0 25) (max 1 (25 / 10)) = inr [seq 0 13; seq 13 12].
Proof. reflexivity. Qed.

Lemma chunked_batch_is_whole_batch_witness :
  let texts := replicate 12 (lit "abc") ++ replicate 13 (lit "hello world") in
  (batch_results Demo.tokenizer Demo.model Demo.softmax Demo.labels
     texts Demo.fresh).1
  = outcome_of (Demo.predict (map PStr texts)).
Proof.
  intros texts.
  apply (chunked_batch_is_whole_batch
           Demo.tokenizer Demo.model Demo.softmax Demo.labels
           texts Demo.fresh).
  apply Forall_app. split; apply Forall_replicate; by vm_compute.
Defined.

(** C3 on the code.  The batch does not pass the texts on as they are:
    the array of [np.array_split] drops a trailing U+0000, so the text
    [U+0000] (a line of a text file with that one octet) reaches the
    chunk's call as the empty string and gets the "Invalid/Empty" record,
    while one call of [predict_category] on the list, as the first tab
    makes it, classifies the text. *)
Lemma chunked_batch_differs_on_trailing_nul :
  txt_texts (readlines [0; 0x0A]%N) = inr [[0%N]]
  ∧ (batch_results Demo.tokenizer Demo.model Demo.softmax Demo.labels
     [[0%N]] Demo.fresh).1
  = Done [sentinel (PStr [])]
  ∧ Demo.predict [PStr [0%N]]
    = inr [Result (PStr [0%N]) (lit "Sports") Demo.three_quarters
             (<[lit "World" := Demo.quarter]>
                (<[lit "Sports" := Demo.three_quarters]> ∅))]
  ∧ (batch_results Demo.tokenizer Demo.model Demo.softmax Demo.labels
       [[0%N]] Demo.fresh).1
    ≠ outcome_of (Demo.predict [PStr [0%N]]).
Proof. by vm_compute. Qed.

(** ** The runs of the two tabs *)

(** Membership of an element in an explicit page [H], case by case. *)
Ltac page_cases H :=
  rewrite ?elem_of_cons, ?elem_of_nil in H;
  repeat (destruct H as [H|H]; [try discriminate H|]);
  try (by injection H as -> _ _); try done.

Lemma endswith_csv_not_txt (s : str) :
  endswith s (lit ".csv") = true → endswith s (lit ".txt") = false.
Proof.
  unfold endswith. intros Hcsv%bool_decide_eq_true.
  apply bool_decide_eq_false. intros Htxt.
  change (length (lit ".txt")) with (length (lit ".csv")) in Htxt.
  rewrite Hcsv in Htxt. by vm_compute in Htxt.
Qed.

Lemma column_None (label : str) (df : csv_frame) :
  label ∉ df.*1 → column label df = None.
Proof.
  induction df as [|[l cells] df IH]; intros Hnotin; simpl; [done|].
  apply not_elem_of_cons in Hnotin as [Hne Hnotin].
  rewrite bool_decide_eq_false_2 by done. by apply IH.
Qed.

Lemma value_counts_empty (values : list (list N)) :
  value_counts values = ∅ ↔ values = [].
Proof.
  destruct values as [|v vs]; simpl; [done|].
  split; [|done]. intros H. by apply insert_non_empty in H.
Qed.

Section ScriptFacts.
Context {encoding : Type}.
Variable loaded_tokenizer : str → encoding.
Variable loaded_model : encoding → exn + list float.
Variable softmax : list float → list float.
Variable id_to_label_map : gmap nat (list N).
Variable pd_read_csv : bytes → exn + csv_frame.
Variable repr_float : float → str.
Variable to_csv : DataFrame → bytes.

Local Abbreviation run_tab1 :=
  (tab1 loaded_tokenizer loaded_model softmax id_to_label_map).
Local Abbreviation run_tab2 :=
  (tab2 loaded_tokenizer loaded_model softmax id_to_label_map
     pd_read_csv repr_float to_csv).
Local Abbreviation run_show_results := (show_results to_csv).

(** C8.  When the stripped text of the text area has fewer than ten
    characters, a run of the first tab calls [predict_category] not at
    all and shows no result: it renders the tab's header and, when the
    Classify Article button was clicked (which needs a non-empty text
    area), the warning that the input is too short. *)
Theorem short_input_is_not_classified (ui : widgets) (w : world) :
  let user_input_single := text_input_single (session_state w) in
  length (strip user_input_single) < 10 →
  run_tab1 ui w =
    (Done (),
     World (session_state w)
       (page w ++
          st_header (lit "Analyze a Single Article") ::
          (if st_button (classify_clicked ui)
                (negb (truthy user_input_single))
           then [st_warning
                   (lit "Input is too short. Please provide more text.")]
           else []))
       (predictions w)).
Proof.
  intros user_input_single Hshort.
  unfold tab1, mbind, app_bind, render, get_session. cbn.
  fold user_input_single.
  destruct (st_button _ _); [|done].
  destruct (Nat.leb_spec (length (strip user_input_single)) 9); [|lia].
  cbn. by rewrite <-app_assoc.
Qed.

(** C7.  When the uploaded file is a CSV file whose parsed frame has no
    [text] column, a run of the second tab renders the error message and
    stops the script there: [predict_category] is not called, the session
    state, with any stored results frame, is as before, and nothing
    after the message is rendered. *)
Theorem csv_without_text_column_aborts (ui : widgets) (f : UploadedFile)
    (df : csv_frame) (w : world) :
  uploaded_file ui = Some f →
  endswith (name f) (lit ".csv") = true →
  pd_read_csv (data f) = inr df →
  lit "text" ∉ df.*1 →
  run_tab2 ui w =
    (Stopped,
     World (session_state w)
       (page w ++
          [st_header (lit "Analyze a Batch of Articles");
           st_markdown (lit "Upload a **TXT** (one article per line) or **CSV** (must contain a 'text' column) file.");
           st_error (lit "CSV file must contain a 'text' column.")])
       (predictions w)).
Proof.
  intros Hfile Hcsv Hread Hnotext.
  unfold tab2, process_upload, parse_upload, try_except.
  unfold mbind, app_bind, render. cbn.
  rewrite Hfile, (endswith_csv_not_txt _ Hcsv), Hcsv, Hread. cbn.
  rewrite (column_None _ _ Hnotext). cbn.
  by rewrite <-!app_assoc.
Qed.

End ScriptFacts.

(** ** The confidence filter and the stored results *)

Lemma confidence_column (results : list result) :
  lit "confidence" ∈ df_columns (pd_DataFrame results) ↔ results ≠ [].
Proof.
  destruct results as [|r rs]; simpl.
  - split; [by intros ?%elem_of_nil | done].
  - split; [done|]. intros _. unfold result_keys. set_solver.
Qed.

(** The frame of an empty result list has no column to filter on. *)
Lemma filter_confidence_empty threshold :
  filter_confidence (pd_DataFrame []) threshold = inl (KeyError "confidence").
Proof. reflexivity. Qed.

Lemma filter_confidence_nonempty (results : list result) threshold :
  results ≠ [] →
  filter_confidence (pd_DataFrame results) threshold =
    inr (Frame result_keys
           (List.filter (λ r, float_ge (confidence r) threshold) results)).
Proof.
  intros Hne. unfold filter_confidence.
  rewrite bool_decide_eq_true_2 by by apply confidence_column.
  by destruct results.
Qed.

(** On the frame of at least one result the filter keeps, in order, the
    rows whose confidence is at least the threshold, and no others. *)
Lemma filter_confidence_rows (results : list result) threshold :
  results ≠ [] →
  ∃ kept,
    filter_confidence (pd_DataFrame results) threshold = inr kept
    ∧ sublist (df_rows kept) results
    ∧ ∀ r, r ∈ df_rows kept ↔
           r ∈ results ∧ float_ge (confidence r) threshold = true.
Proof.
  intros Hne. eexists. split; [by apply filter_confidence_nonempty|].
  simpl. split.
  - clear Hne. induction results as [|r rs IH]; simpl; [done|].
    destruct (float_ge _ _); by constructor.
  - intros r. by rewrite !list_elem_of_In, filter_In.
Qed.

Lemma filter_all (results : list result) (keep : result → bool) :
  Forall (λ r, keep r = true) results → List.filter keep results = results.
Proof.
  induction 1 as [|r rs Hr _ IH]; simpl; [done|]. by rewrite Hr, IH.
Qed.

Lemma filter_none (results : list result) (keep : result → bool) :
  Forall (λ r, keep r = false) results → List.filter keep results = [].
Proof.
  induction 1 as [|r rs Hr _ IH]; simpl; [done|]. by rewrite Hr.
Qed.

(** Threshold 0.0 keeps every row of non-negative confidence, the
    "Invalid/Empty" rows among them. *)
Lemma filter_confidence_zero (results : list result) :
  results ≠ [] →
  Forall (λ r, SFleb float_zero (confidence r) = true) results →
  filter_confidence (pd_DataFrame results) float_zero
  = inr (pd_DataFrame results).
Proof.
  intros Hne Hpos. rewrite filter_confidence_nonempty by done.
  rewrite filter_all by done. by destruct results.
Qed.

(** A threshold above every confidence present keeps no row. *)
Lemma filter_confidence_above (results : list result) threshold :
  results ≠ [] →
  Forall (λ r, SFltb (confidence r) threshold = true) results →
  filter_confidence (pd_DataFrame results) threshold
  = inr (Frame result_keys []).
Proof.
  intros Hne Hlt. rewrite filter_confidence_nonempty by done.
  rewrite filter_none; [done|].
  eapply Forall_impl; [exact Hlt|]. intros r Hr. by apply SFltb_not_leb.
Qed.

Section ResultsFacts.
Variable to_csv : DataFrame → bytes.

Local Abbreviation run_show_results := (show_results to_csv).

(** What a run renders for a stored results frame. *)
Lemma show_results_run (ui : widgets) (w : world) (results : list result) :
  results_df (session_state w) = Some (pd_DataFrame results) →
  run_show_results ui w =
    let threshold := confidence_threshold ui in
    let kept :=
      List.filter (λ r, float_ge (confidence r) threshold) results in
    let counts := value_counts (map predicted_category kept) in
    match results, kept with
    | [], _ =>
        (Raised (KeyError "confidence"),
         World (session_state w)
           (page w ++ [st_subheader (lit "Analysis Results")])
           (predictions w))
    | _ :: _, [] =>
        (Done (),
         World (session_state w)
           (page w ++
              [st_subheader (lit "Analysis Results");
               st_warning (lit "No articles met the confidence threshold. Try lowering it in the sidebar settings.")])
           (predictions w))
    | _ :: _, _ :: _ =>
        (Done (),
         World (session_state w)
           (page w ++
              [st_subheader (lit "Analysis Results");
               st_category_chart threshold counts;
               st_dataframe counts;
               st_download_button (to_csv (pd_DataFrame results))
                 (lit "news_classification_results.csv") (lit "text/csv")])
           (predictions w))
    end.
Proof.
  intros Hdf. unfold show_results, mbind, app_bind, get_session, render.
  cbn. rewrite Hdf. cbn.
  destruct results as [|r0 rs]; [done|].
  rewrite filter_confidence_nonempty by done.
  remember (List.filter
              (λ r, float_ge (confidence r) (confidence_threshold ui))
              (r0 :: rs)) as kept eqn:Hkept.
  cbn [lift mret app_ret]. unfold category_value_counts.
  cbn [df_columns df_rows].
  rewrite bool_decide_eq_true_2 by (unfold result_keys; set_solver).
  cbn [lift mret app_ret]. destruct kept as [|k ks].
  - cbn [map value_counts]. rewrite bool_decide_eq_true_2 by done.
    cbn. by rewrite <-app_assoc.
  - rewrite bool_decide_eq_false_2 by by rewrite value_counts_empty.
    cbn [negb session_state page predictions]. by rewrite <-!app_assoc.
Qed.

(** C10, amended.  Whatever the threshold, a download button that a run
    renders for the stored results carries the CSV text of the whole
    stored frame, not of the filtered one; the button is rendered exactly
    when at least one row meets the threshold, and the run leaves the
    session state as it was. *)
Theorem download_holds_all_results (ui : widgets) (w : world)
    (results : list result) :
  results_df (session_state w) = Some (pd_DataFrame results) →
  let w' := (run_show_results ui w).2 in
  let shown := drop (length (page w)) (page w') in
  (∀ csv file_name mime,
     st_download_button csv file_name mime ∈ shown →
     csv = to_csv (pd_DataFrame results))
  ∧ ((∃ csv file_name mime, st_download_button csv file_name mime ∈ shown)
     ↔ ∃ r, r ∈ results
            ∧ float_ge (confidence r) (confidence_threshold ui) = true)
  ∧ session_state w' = session_state w.
Proof.
  intros Hdf w' shown. subst w' shown.
  rewrite (show_results_run ui w results Hdf). cbn zeta.
  destruct results as [|r0 rs].
  { cbn [snd page session_state]. rewrite drop_app_length.
    split; [|split; [|done]].
    - intros ??? Hin. page_cases Hin.
    - split.
      + intros (?&?&?&Hin). page_cases Hin.
      + intros (r & Hr & _). by apply elem_of_nil in Hr. }
  destruct (List.filter
              (λ r, float_ge (confidence r) (confidence_threshold ui))
              (r0 :: rs)) as [|k ks] eqn:Hkept;
    cbn [snd page session_state]; rewrite drop_app_length;
    (split; [|split; [|done]]).
  - intros ??? Hin. page_cases Hin.
  - split.
    { intros (?&?&?&Hin). page_cases Hin. }
    intros (r & Hr & Hge). exfalso.
    assert (In r (List.filter
                    (λ r, float_ge (confidence r) (confidence_threshold ui))
                    (r0 :: rs))) as Hin.
    { apply filter_In. by rewrite <-list_elem_of_In. }
    by rewrite Hkept in Hin.
  - intros ??? Hin. page_cases Hin.
  - split.
    2:{ intros _. eexists _, _, _. rewrite !elem_of_cons.
        right; right; right; left. reflexivity. }
    intros _. exists k.
    assert (In k (List.filter
                    (λ r, float_ge (confidence r) (confidence_threshold ui))
                    (r0 :: rs))) as Hin.
    { rewrite Hkept. by left. }
    apply filter_In in Hin as [Hin Hge]. by rewrite list_elem_of_In.
Qed.

End ResultsFacts.

(** ** What file parsing passes to the batch *)

Lemma lstrip_with_idem sp s :
  lstrip_with sp (lstrip_with sp s) = lstrip_with sp s.
Proof.
  induction s as [|c s IH]; simpl; [done|].
  destruct (sp c) eqn:Hc; [done|]. simpl. by rewrite Hc.
Qed.

Lemma lstrip_with_length sp s : length (lstrip_with sp s) ≤ length s.
Proof.
  induction s as [|c s IH]; simpl; [done|]. destruct (sp c); simpl; lia.
Qed.

(** A list stripped on the left does not start with a space. *)
Lemma lstrip_with_fixed sp c s :
  lstrip_with sp (c :: s) = c :: s → sp c = false.
Proof.
  simpl. destruct (sp c); [|done]. intros Heq.
  pose proof (lstrip_with_length sp s) as Hlen.
  rewrite Heq in Hlen. simpl in Hlen. lia.
Qed.

(** Stripping on the right leaves a leading segment. *)
Lemma rstrip_with_prefix sp s : ∃ suffix, s = rstrip_with sp s ++ suffix.
Proof.
  unfold rstrip_with.
  assert (∀ u, ∃ pre, u = pre ++ lstrip_with sp u) as Hsuffix.
  { induction u as [|d u [pre IH]]; simpl; [by exists []|].
    destruct (sp d); [|by exists []].
    exists (d :: pre). simpl. congruence. }
  destruct (Hsuffix (rev s)) as [pre Hpre]. exists (rev pre).
  by rewrite <-rev_app_distr, <-Hpre, rev_involutive.
Qed.

Lemma rstrip_with_idem sp s :
  rstrip_with sp (rstrip_with sp s) = rstrip_with sp s.
Proof. unfold rstrip_with. by rewrite rev_involutive, lstrip_with_idem. Qed.

Lemma lstrip_with_rstrip sp s :
  lstrip_with sp s = s → lstrip_with sp (rstrip_with sp s) = rstrip_with sp s.
Proof.
  intros Hs. destruct s as [|c s]; [done|].
  apply lstrip_with_fixed in Hs.
  destruct (rstrip_with_prefix sp (c :: s)) as [suffix Hpre].
  destruct (rstrip_with sp (c :: s)) as [|d r]; [done|].
  injection Hpre as <- _. simpl. by rewrite Hs.
Qed.

(** [strip] is idempotent: a stripped text is its own stripped form. *)
Lemma strip_with_idem sp s : strip_with sp (strip_with sp s) = strip_with sp s.
Proof.
  unfold strip_with.
  rewrite (lstrip_with_rstrip sp (lstrip_with sp s)) by apply lstrip_with_idem.
  apply rstrip_with_idem.
Qed.

Lemma txt_texts_stripped (lines : list bytes) : ∀ ts,
  txt_texts lines = inr ts → Forall (λ t, strip t = t) ts.
Proof.
  induction lines as [|line rest IH]; intros ts; simpl.
  { intros [= <-]. constructor. }
  destruct (truthy (bytes_strip line)); [|by apply IH].
  destruct (decode_utf8 line) as [e|s]; [done|].
  destruct (txt_texts rest) as [e|ts']; [done|].
  intros [= <-]. constructor; [apply strip_with_idem | by apply IH].
Qed.

(** Only lines with an octet that [bytes.strip] keeps give a text. *)
Lemma txt_texts_length (lines : list bytes) : ∀ ts,
  txt_texts lines = inr ts →
  length ts = length (List.filter (λ l, truthy (bytes_strip l)) lines).
Proof.
  induction lines as [|line rest IH]; intros ts; simpl.
  { by intros [= <-]. }
  destruct (truthy (bytes_strip line)); [|by apply IH].
  destruct (decode_utf8 line) as [e|s]; [done|].
  destruct (txt_texts rest) as [e|ts']; [done|].
  intros [= <-]. simpl. f_equal. by apply IH.
Qed.

Section UploadFacts.
Context {encoding : Type}.
Variable loaded_tokenizer : str → encoding.
Variable loaded_model : encoding → exn + list float.
Variable softmax : list float → list float.
Variable id_to_label_map : gmap nat (list N).
Variable repr_float : float → str.

Local Abbreviation the_record :=
  (record_for loaded_tokenizer loaded_model softmax id_to_label_map).
Local Abbreviation predict :=
  (predict_category loaded_tokenizer loaded_model softmax id_to_label_map).
Local Abbreviation run_chunks :=
  (chunk_loop loaded_tokenizer loaded_model softmax id_to_label_map).
Local Abbreviation run_batch :=
  (batch_results loaded_tokenizer loaded_model softmax id_to_label_map).

Lemma dict_of_enumerate_nonempty row : ∀ d i,
  row ≠ [] → dict_of_enumerate id_to_label_map d i row ≠ ∅.
Proof.
  induction row as [|p row IH]; intros d i Hne; [done|]. simpl.
  destruct row as [|q row]; [apply insert_non_empty | by apply IH].
Qed.

(** The record of a classified text holds probabilities: it is never the
    "Invalid/Empty" record. *)
Lemma classify_not_sentinel s r t :
  classify loaded_tokenizer loaded_model softmax id_to_label_map s = inr r →
  r ≠ sentinel t.
Proof.
  intros (probabilities & k & _ & Hk & _ & _ & Hraw)%classify_inv ->.
  simpl in Hraw. symmetry in Hraw. revert Hraw.
  apply dict_of_enumerate_nonempty. by destruct probabilities.
Qed.

Lemma record_for_sentinel_iff s r :
  the_record (PStr s) = inr r →
  text r = PStr s ∧ (r = sentinel (PStr s) ↔ strip s = []).
Proof.
  intros Hrec. split; [by eapply record_for_text|].
  destruct (decide (strip s = [])) as [Hs|Hs].
  - rewrite record_for_invalid in Hrec by by intros ? [= <-].
    injection Hrec as <-. done.
  - rewrite record_for_valid in Hrec by done.
    split; [|done]. intros ->. exfalso.
    by eapply (classify_not_sentinel s _ (PStr s)).
Qed.

(** Every call of the chunk loop passes a list of strings. *)
Lemma chunk_loop_predictions num_chunks ntexts chunks : ∀ i results w,
  ∃ n,
    predictions (run_chunks num_chunks ntexts i results chunks w).2
    = predictions w ++ map (map PStr) (take n chunks).
Proof.
  induction chunks as [|text_chunk rest IH]; intros i results w.
  { exists 0. simpl. by rewrite app_nil_r. }
  cbn [chunk_loop]. unfold mbind, app_bind, call_predict_category at 1.
  destruct (predict_category _ _ _ _ _) as [e|rs]; cbn [lift raise mret app_ret].
  { exists 1. cbn [snd predictions take map]. by rewrite take_0. }
  unfold render at 1. cbn [session_state page predictions].
  match goal with
  | |- context [chunk_loop _ _ _ _ ?nc ?nt ?j ?acc rest ?w'] =>
      destruct (IH j acc w') as [n Hn]
  end.
  exists (S n). rewrite Hn. cbn [predictions take map].
  by rewrite <-app_assoc.
Qed.

Lemma txt_texts_exact (lines : list bytes) : ∀ ts,
  txt_texts lines = inr ts →
  Forall2 (λ line t, ∃ s, utf8_decode line = Some s ∧ t = strip s)
    (List.filter (λ line, truthy (bytes_strip line)) lines) ts.
Proof.
  induction lines as [|line rest IH]; intros ts; simpl.
  { intros [= <-]. constructor. }
  destruct (truthy (bytes_strip line)); [|by apply IH].
  unfold decode_utf8. destruct (utf8_decode line) as [s|] eqn:Hs; [|done].
  destruct (txt_texts rest) as [e|ts']; [done|].
  intros [= <-]. constructor; [by exists s | by apply IH].
Qed.

(** A chunk loop that comes to its end has called [predict_category] on
    every chunk, in order. *)
Lemma chunk_loop_calls num_chunks ntexts chunks : ∀ i results w final,
  (run_chunks num_chunks ntexts i results chunks w).1 = Done final →
  predictions (run_chunks num_chunks ntexts i results chunks w).2
  = predictions w ++ map (map PStr) chunks.
Proof.
  induction chunks as [|text_chunk rest IH]; intros i results w final.
  { intros _. simpl. by rewrite app_nil_r. }
  cbn [chunk_loop]. unfold mbind, app_bind, call_predict_category.
  destruct (predict_category _ _ _ _ _) as [e|rs];
    cbn [lift raise mret app_ret]; [done|].
  unfold render. cbn [session_state page predictions].
  match goal with
  | |- context [chunk_loop _ _ _ _ ?nc ?nt ?j ?acc rest ?w'] =>
      pose proof (IH j acc w' final) as IH';
      destruct (chunk_loop _ _ _ _ nc nt j acc rest w') as [o w2]
  end.
  cbn [fst snd predictions] in *. intros Ho. rewrite IH' by done.
  cbn [map]. by rewrite <-app_assoc.
Qed.


End UploadFacts.

(** ** The claims on the example classifier *)

Lemma short_input_is_not_classified_witness :
  let ui := Widgets Demo.three_quarters 100 None true false in
  let w := World (Session (lit "Too short") 0 None) [] [] in
  length (strip (lit "Too short")) < 10
  ∧ tab1 Demo.tokenizer Demo.model Demo.softmax Demo.labels ui w
    = (Done (),
       World (Session (lit "Too short") 0 None)
         [st_header (lit "Analyze a Single Article");
          st_warning (lit "Input is too short. Please provide more text.")]
         []).
Proof.
  intros ui w.
  assert (length (strip (lit "Too short")) < 10) as Hshort
    by (vm_compute; lia).
  split; [exact Hshort|].
  exact (short_input_is_not_classified
           Demo.tokenizer Demo.model Demo.softmax Demo.labels ui w Hshort).
Defined.

Lemma csv_without_text_column_aborts_witness :
  let f := Upload (lit "news.csv") (lit "title") in
  let ui := Widgets Demo.three_quarters 100 (Some f) false true in
  let w := World (Session [] 0 (Some (pd_DataFrame Demo.results))) [] [] in
  tab2 Demo.tokenizer Demo.model Demo.softmax Demo.labels
    Demo.read_csv_no_text Demo.repr_float Demo.to_csv ui w
  = (Stopped,
     World (Session [] 0 (Some (pd_DataFrame Demo.results)))
       [st_header (lit "Analyze a Batch of Articles");
        st_markdown (lit "Upload a **TXT** (one article per line) or **CSV** (must contain a 'text' column) file.");
        st_error (lit "CSV file must contain a 'text' column.")]
       []).
Proof.
  intros f ui w.
  apply (csv_without_text_column_aborts
           Demo.tokenizer Demo.model Demo.softmax Demo.labels
           Demo.read_csv_no_text Demo.repr_float Demo.to_csv
           ui f [(lit "title", [PStr (lit "Stocks rally")])] w).
  - reflexivity.
  - by vm_compute.
  - reflexivity.
  - cbn [fmap list_fmap fst]. apply not_elem_of_cons.
    split; [by vm_compute | apply not_elem_of_nil].
Defined.

Lemma download_holds_all_results_witness :
  let ui := Widgets Demo.half 100 None false false in
  let w := World (Session [] 0 (Some (pd_DataFrame Demo.results))) [] [] in
  let shown := drop (length (page w)) (page (show_results Demo.to_csv ui w).2) in
  (∃ csv file_name mime, st_download_button csv file_name mime ∈ shown)
  ∧ (∀ csv file_name mime,
       st_download_button csv file_name mime ∈ shown →
       csv = Demo.to_csv (pd_DataFrame Demo.results)).
Proof.
  intros ui w shown.
  destruct (download_holds_all_results Demo.to_csv ui w Demo.results eq_refl)
    as (Hfull & Hshown & _).
  split; [|exact Hfull].
  apply Hshown. eexists. split; [by left | by vm_compute].
Defined.

(** With the threshold at 0.5 the two classified rows are shown, and the
    download holds all four. *)
Lemma download_with_rows_filtered_out :
  let ui := Widgets Demo.half 100 None false false in
  let w := World (Session [] 0 (Some (pd_DataFrame Demo.results))) [] [] in
  ∃ counts,
    page (show_results Demo.to_csv ui w).2
    = [st_subheader (lit "Analysis Results");
       st_category_chart Demo.half counts;
       st_dataframe counts;
       st_download_button (lit "rows=4")
         (lit "news_classification_results.csv") (lit "text/csv")]
    ∧ counts !! lit "World" = Some 1
    ∧ counts !! lit "Sports" = Some 1
    ∧ counts !! lit "Invalid/Empty" = None.
Proof. eexists. by vm_compute. Qed.


(** C10, as stated, fails: the threshold decides more than which rows are
    displayed.  With the four example results stored, a threshold of 1.0,
    above every confidence, leaves no download button on the page, so no
    export with every result row is to be had, while a threshold of 0.5
    renders one. *)
Lemma no_download_above_every_confidence :
  let w := World (Session [] 0 (Some (pd_DataFrame Demo.results))) [] [] in
  let strict := Widgets Demo.one 100 None false false in
  let lenient := Widgets Demo.half 100 None false false in
  page (show_results Demo.to_csv strict w).2
  = [st_subheader (lit "Analysis Results");
     st_warning (lit "No articles met the confidence threshold. Try lowering it in the sidebar settings.")]
  ∧ st_download_button (Demo.to_csv (pd_DataFrame Demo.results))
      (lit "news_classification_results.csv") (lit "text/csv")
    ∈ page (show_results Demo.to_csv lenient w).2
  ∧ ¬ (∀ ui,
         results_df (session_state w) = Some (pd_DataFrame Demo.results) →
         ∃ csv file_name mime,
           st_download_button csv file_name mime
           ∈ page (show_results Demo.to_csv ui w).2).
Proof.
  intros w strict lenient. split; [by vm_compute|]. split.
  - assert (page (show_results Demo.to_csv lenient w).2 !! 3
            = Some (st_download_button
                      (Demo.to_csv (pd_DataFrame Demo.results))
                      (lit "news_classification_results.csv")
                      (lit "text/csv"))) as Hbutton by by vm_compute.
    by eapply list_elem_of_lookup_2.
  - intros Hall.
    destruct (Hall strict eq_refl) as (csv & fn & mime & Hin).
    assert (page (show_results Demo.to_csv strict w).2
            = [st_subheader (lit "Analysis Results");
               st_warning (lit "No articles met the confidence threshold. Try lowering it in the sidebar settings.")])
      as Hpage by by vm_compute.
    rewrite Hpage in Hin. page_cases Hin.
Qed.


(** The same from a CSV file whose [text] column has a cell of one space:
    the cell is not missing, so it is kept, and it gets the
    "Invalid/Empty" record. *)
Lemma csv_upload_yields_sentinel :
  let f := Upload (lit "news.csv") (lit "id,text") in
  let ui := Widgets float_zero 100 (Some f) false true in
  ∃ r,
    results_df
      (session_state
         (tab2 Demo.tokenizer Demo.model Demo.softmax Demo.labels
            Demo.read_csv Demo.repr_float Demo.to_csv ui Demo.fresh).2)
    = Some (pd_DataFrame [sentinel (PStr (lit " ")); r])
    ∧ text r = PStr (lit "Stocks rally").
Proof. eexists. by vm_compute. Qed.

(** C5 on the code.  A text file without a non-blank line gives a batch of
    no texts; Run Analysis stores the frame of an empty result list, which
    has no columns, and the confidence filter of the same run raises
    [KeyError] on it instead of keeping its zero rows. *)
Theorem empty_batch_filter_raises :
  let f := Upload (lit "news.txt") [0x0A]%N in
  let ui := Widgets float_zero 100 (Some f) false true in
  let run := tab2 Demo.tokenizer Demo.model Demo.softmax Demo.labels
               Demo.read_csv Demo.repr_float Demo.to_csv ui Demo.fresh in
  run.1 = Raised (KeyError "confidence")
  ∧ results_df (session_state run.2) = Some (pd_DataFrame [])
  ∧ filter_confidence (pd_DataFrame []) float_zero
    = inl (KeyError "confidence").
Proof. by vm_compute. Qed.

(** ** The export read back *)

(** *** The tokenizer on written rows *)

Local Ltac tok_step :=
  rewrite <- ?app_comm_cons, ?app_nil_l; cbn [tokenize_from step].

Lemma tok_in_field (s f : str) (row : list str) (rest : str) :
  Forall (λ c, c ≠ LF ∧ c ≠ CR ∧ c ≠ DELIMITER) s →
  tokenize_from IN_FIELD f row (s ++ rest)
  = tokenize_from IN_FIELD (f ++ s) row rest.
Proof.
  intros Hs. revert f.
  induction Hs as [|c s (Hlf & Hcr & Hd) _ IH]; intros f.
  - by rewrite app_nil_r.
  - tok_step.
    apply N.eqb_neq in Hlf, Hcr, Hd. rewrite Hlf, Hcr, Hd.
    rewrite IH. by rewrite <- app_assoc.
Qed.

Lemma tok_quoted (s f : str) (row : list str) (rest : str) :
  tokenize_from IN_QUOTED_FIELD f row (double_quotes s ++ QUOTECHAR :: rest)
  = tokenize_from QUOTE_IN_QUOTED_FIELD (f ++ s) row rest.
Proof.
  revert f. induction s as [|c s IH]; intros f.
  - by rewrite app_nil_r.
  - unfold double_quotes in *. cbn [flat_map]. rewrite <- app_assoc.
    destruct (c =? QUOTECHAR)%N eqn:Hc.
    + apply N.eqb_eq in Hc. subst c.
      change (tokenize_from IN_QUOTED_FIELD (f ++ [QUOTECHAR]) row
                (flat_map
                   (λ c, if (c =? QUOTECHAR)%N then [QUOTECHAR; QUOTECHAR]
                         else [c]) s ++ QUOTECHAR :: rest)
              = tokenize_from QUOTE_IN_QUOTED_FIELD (f ++ QUOTECHAR :: s)
                  row rest).
      rewrite IH. by rewrite <- app_assoc.
    + tok_step. rewrite Hc. rewrite IH. by rewrite <- app_assoc.
Qed.

(** The states in which a delimiter or a line end closes the field. *)
Local Abbreviation closing st :=
  (st = START_FIELD ∨ st = IN_FIELD ∨ st = QUOTE_IN_QUOTED_FIELD).

Lemma tok_delimiter st (f : str) (row : list str) (rest : str) :
  closing st →
  tokenize_from st f row (DELIMITER :: rest)
  = tokenize_from START_FIELD [] (row ++ [f]) rest.
Proof. by intros [->|[->| ->]]. Qed.

Lemma tok_line_end st (f : str) (row : list str) (rest : str) :
  closing st →
  tokenize_from st f row (LF :: rest)
  = add_row (row ++ [f]) (tokenize_from START_RECORD [] [] rest).
Proof. by intros [->|[->| ->]]. Qed.

Section CsvFacts.
Variable quotes_cr : bool.
Variable repr_float : float → str.
Variable str_dict : gmap (list N) spec_float → str.
Variable str_of_column : list pyval → list str.
Variable parse_int : str → option Z.
Variable parse_float : str → option float.
Variable pd_read_csv : str → exn + csv_frame.

Local Abbreviation write_field' := (write_field quotes_cr).
Local Abbreviation writerow' := (writerow quotes_cr).

(** A field without a special character is written as it is, any other
    in quotes. *)
Lemma write_field_cases (s : str) :
  clean quotes_cr s = true →
  (write_field' s = s
   ∧ Forall (λ c, c ≠ LF ∧ c ≠ CR ∧ c ≠ DELIMITER ∧ c ≠ QUOTECHAR) s)
  ∨ write_field' s = QUOTECHAR :: double_quotes s ++ [QUOTECHAR].
Proof.
  intros Hclean. unfold write_field.
  destruct (existsb (needs_quotes quotes_cr) s) eqn:Hq; [by right|left].
  split; [done|].
  apply andb_true_iff in Hclean as [_ Hcr].
  apply Forall_forall. intros c Hc.
  assert (needs_quotes quotes_cr c = false) as Hn.
  { destruct (needs_quotes quotes_cr c) eqn:Hn; [|done].
    assert (existsb (needs_quotes quotes_cr) s = true) as Hex
      by (apply existsb_exists; exists c; split; [by apply list_elem_of_In|done]).
    congruence. }
  unfold needs_quotes in Hn.
  repeat (apply orb_false_iff in Hn as [Hn ?]).
  apply N.eqb_neq in Hn.
  repeat match goal with H : (_ =? _)%N = false |- _ => apply N.eqb_neq in H end.
  repeat split; try done.
  intros ->. destruct quotes_cr; [done|].
  cbn [orb negb] in Hcr. apply negb_true_iff, bool_decide_eq_false in Hcr.
  done.
Qed.

(** A written field takes the tokenizer from the start of a field to a
    state that closes the field, with the field read. *)
Lemma tok_field (s : str) (row : list str) (tail : str) :
  clean quotes_cr s = true →
  ∃ st, closing st
        ∧ tokenize_from START_FIELD [] row (write_field' s ++ tail)
          = tokenize_from st s row tail.
Proof.
  intros Hclean.
  destruct (write_field_cases s Hclean) as [[-> Hplain]| ->].
  - destruct Hplain as [|c s (Hlf & Hcr & Hd & Hq) Hplain].
    + exists START_FIELD. split; [by left|done].
    + exists IN_FIELD. split; [by right; left|].
      tok_step. unfold start_field.
      apply N.eqb_neq in Hlf, Hcr, Hd, Hq. rewrite Hlf, Hcr, Hd, Hq.
      rewrite tok_in_field; [done|].
      eapply Forall_impl; [exact Hplain|]. by intros ? (? & ? & ? & ?).
  - exists QUOTE_IN_QUOTED_FIELD. split; [by right; right|].
    rewrite <- app_comm_cons, <- app_assoc.
    change (tokenize_from IN_QUOTED_FIELD [] row
              (double_quotes s ++ QUOTECHAR :: tail)
            = tokenize_from QUOTE_IN_QUOTED_FIELD s row tail).
    by rewrite tok_quoted.
Qed.

Lemma whitespace_line_field (s tail : str) :
  Forall (λ c, c ≠ LF ∧ c ≠ CR ∧ c ≠ DELIMITER ∧ c ≠ QUOTECHAR) s →
  whitespace_line (s ++ DELIMITER :: tail) = false.
Proof.
  induction 1 as [|c s (Hlf & _) _ IH]; [done|].
  rewrite <- app_comm_cons. cbn [whitespace_line].
  apply N.eqb_neq in Hlf. rewrite Hlf.
  rewrite IH. by destruct (is_whitespace c).
Qed.

(** At the start of a record a written field followed by a delimiter is
    read as at the start of a field: the line is not blank. *)
Lemma tok_record_start (s : str) (tail : str) :
  clean quotes_cr s = true →
  tokenize_from START_RECORD [] [] (write_field' s ++ DELIMITER :: tail)
  = tokenize_from START_FIELD [] [] (write_field' s ++ DELIMITER :: tail).
Proof.
  intros Hclean.
  destruct (write_field_cases s Hclean) as [[-> Hplain]| ->].
  - destruct Hplain as [|c s (Hlf & Hcr & Hd & Hq) Hplain]; [done|].
    tok_step.
    rewrite (whitespace_line_field s tail Hplain), andb_false_r.
    apply N.eqb_neq in Hlf, Hcr. by rewrite Hlf, Hcr.
  - done.
Qed.

Lemma tok_fields (s : str) (more row : list str) (rest : str) :
  Forall (λ s, clean quotes_cr s = true) (s :: more) →
  tokenize_from START_FIELD [] row
    (join_fields (map write_field' (s :: more)) ++ LF :: rest)
  = add_row (row ++ s :: more) (tokenize_from START_RECORD [] [] rest).
Proof.
  revert s row. induction more as [|s' more IH]; intros s row Hclean.
  - apply Forall_cons in Hclean as [Hs _]. cbn [map join_fields].
    destruct (tok_field s row (LF :: rest) Hs) as (st & Hst & ->).
    by rewrite tok_line_end.
  - apply Forall_cons in Hclean as [Hs Hmore].
    change (join_fields (map write_field' (s :: s' :: more)))
      with (write_field' s
              ++ DELIMITER :: join_fields (map write_field' (s' :: more))).
    rewrite <- app_assoc, <- app_comm_cons.
    destruct (tok_field s row
                (DELIMITER :: join_fields (map write_field' (s' :: more))
                   ++ LF :: rest) Hs) as (st & Hst & ->).
    rewrite tok_delimiter by done. rewrite IH by done.
    by rewrite <- app_assoc.
Qed.

(** A written row of two or more fields is read as the row it was. *)
Lemma tok_row (fields : list str) (rest : str) :
  2 ≤ length fields →
  Forall (λ s, clean quotes_cr s = true) fields →
  tokenize_from START_RECORD [] [] (writerow' fields ++ rest)
  = add_row fields (tokenize_from START_RECORD [] [] rest).
Proof.
  intros Hlen Hclean.
  destruct fields as [|s [|s' more]]; [cbn in Hlen; lia..|].
  assert (writerow' (s :: s' :: more)
          = write_field' s
              ++ DELIMITER :: join_fields (map write_field' (s' :: more))
              ++ [LF]) as ->.
  { unfold writerow. destruct s; cbn [map join_fields];
      by rewrite <- app_assoc. }
  rewrite <- app_assoc, <- app_comm_cons, <- app_assoc.
  change ([LF] ++ rest) with (LF :: rest).
  apply Forall_cons in Hclean as [Hs Hmore].
  rewrite tok_record_start by done.
  destruct (tok_field s []
              (DELIMITER :: join_fields (map write_field' (s' :: more))
                 ++ LF :: rest) Hs) as (st & Hst & ->).
  rewrite tok_delimiter by done. by rewrite tok_fields.
Qed.

Lemma tok_rows (rows : list (list str)) :
  Forall (λ fields, 2 ≤ length fields
                    ∧ Forall (λ s, clean quotes_cr s = true) fields) rows →
  tokenize (concat (map writerow' rows)) = (rows, At_end).
Proof.
  unfold tokenize. induction 1 as [|fields rows [Hlen Hclean] _ IH]; [done|].
  cbn [map concat]. rewrite tok_row by done. by rewrite IH.
Qed.

(** *** The written text has no U+0000 *)

Lemma double_quotes_Forall (P : N → Prop) (s : str) :
  P QUOTECHAR → Forall P s → Forall P (double_quotes s).
Proof.
  intros HQ. induction 1 as [|c s Hc _ IH]; [done|].
  unfold double_quotes in *. cbn [flat_map].
  destruct (c =? QUOTECHAR)%N; repeat constructor; done.
Qed.

Lemma join_fields_Forall (P : N → Prop) (fields : list str) :
  P DELIMITER → Forall (Forall P) fields → Forall P (join_fields fields).
Proof.
  intros HD. induction 1 as [|f fields Hf Hfields IH]; [done|].
  destruct fields as [|f' fields]; [done|].
  change (join_fields (f :: f' :: fields))
    with (f ++ DELIMITER :: join_fields (f' :: fields)).
  apply Forall_app. split; [done|]. by constructor.
Qed.

Lemma writerow_Forall (P : N → Prop) (fields : list str) :
  P QUOTECHAR → P DELIMITER → P LF →
  Forall (Forall P) fields → Forall P (writerow' fields).
Proof.
  intros HQ HD HL Hfields.
  assert (Forall P (join_fields (map write_field' fields) ++ [LF])) as Hrow.
  { apply Forall_app. split; [|by repeat constructor].
    apply join_fields_Forall; [done|].
    apply Forall_map. eapply Forall_impl; [exact Hfields|].
    intros s Hs. unfold write_field.
    destruct (existsb (needs_quotes quotes_cr) s); [|done].
    constructor; [done|]. apply Forall_app. split; [|by repeat constructor].
    by apply double_quotes_Forall. }
  unfold writerow. destruct fields as [|[|c s] [|s' more]]; try done.
  by repeat constructor.
Qed.

Lemma clean_no_nul (s : str) :
  clean quotes_cr s = true → Forall (λ c, c ≠ 0%N) s.
Proof.
  intros Hclean. apply andb_true_iff in Hclean as [Hnul _].
  apply negb_true_iff, bool_decide_eq_false in Hnul.
  apply Forall_forall. by intros c Hc ->.
Qed.

(** *** The types of the columns *)

Lemma mapM_all {A B} (f : A → option B) (g : A → B) (l : list A) :
  Forall (λ x, f x = Some (g x)) l → mapM f l = Some (map g l).
Proof.
  induction 1 as [|x l Hx _ IH]; [done|].
  cbn [mapM map]. rewrite Hx, IH. done.
Qed.

Lemma mapM_head_None {A B} (f : A → option B) (x : A) (l : list A) :
  f x = None → mapM f (x :: l) = None.
Proof. intros Hx. cbn [mapM]. by rewrite Hx. Qed.

Local Abbreviation convert_column' := (convert_column parse_int parse_float).
Local Abbreviation reads_as_text' := (reads_as_text parse_int parse_float).
Local Abbreviation reads_as_float' := (reads_as_float parse_int parse_float).
Local Abbreviation read_back' := (read_back parse_float repr_float).

Lemma is_none_None {A} (o : option A) : is_none o = true → o = None.
Proof. by destruct o. Qed.

(** A column of fields that are read as text holds the fields. *)
Lemma convert_text (fields : list str) :
  Forall (λ s, reads_as_text' s = true) fields →
  convert_column' fields = map PStr fields.
Proof.
  intros Hfields. destruct Hfields as [|s fields Hs Hfields]; [done|].
  assert (Forall (λ s, reads_as_text' s = true) (s :: fields)) as Hall
    by by constructor.
  unfold reads_as_text in Hs.
  repeat (apply andb_true_iff in Hs as [Hs ?]).
  apply negb_true_iff in Hs.
  repeat match goal with
         | H : is_none _ = true |- _ => apply is_none_None in H
         end.
  unfold convert_column.
  rewrite !mapM_head_None by (rewrite Hs; by simplify_option_eq).
  apply map_ext_Forall. eapply Forall_impl; [exact Hall|].
  intros s' Hs'. unfold reads_as_text in Hs'.
  repeat (apply andb_true_iff in Hs' as [Hs' ?]).
  apply negb_true_iff in Hs'. by rewrite Hs'.
Qed.

Lemma missing_na_rep : missing na_rep = true.
Proof. by vm_compute. Qed.

(** A column of written confidences holds the floats read from them,
    and NaN where nothing was written. *)
Lemma convert_confidences (cs : list float) :
  Forall (λ c, isnan c = true
               ∨ reads_as_float' (repr_float c) = true) cs →
  convert_column' (map (float_cell repr_float) cs)
  = map (λ c, PFloat (read_back' c)) cs.
Proof.
  intros Hcs.
  assert (Forall (λ c,
            (if missing (float_cell repr_float c) then None
             else PInt <$> parse_int (float_cell repr_float c)) = None
            ∧ (if missing (float_cell repr_float c)
               then Some (PFloat S754_nan)
               else PFloat <$> parse_float (float_cell repr_float c))
              = Some (PFloat (read_back' c))) cs) as Hcells.
  { eapply Forall_impl; [exact Hcs|]. intros c Hc.
    unfold float_cell, read_back.
    destruct (isnan c) eqn:Hnan; [by rewrite missing_na_rep|].
    destruct Hc as [Hc|Hc]; [congruence|].
    unfold reads_as_float in Hc.
    repeat (apply andb_true_iff in Hc as [Hc ?]).
    apply negb_true_iff in Hc. rewrite Hc.
    match goal with H : is_none _ = true |- _ => apply is_none_None in H;
      rewrite H end.
    split; [done|].
    destruct (parse_float (repr_float c)); done. }
  unfold convert_column. destruct Hcells as [|c cs [Hint Hfloat] Hcells]; [done|].
  cbn [map]. rewrite mapM_head_None by done.
  assert (mapM (λ s, if missing s then Some (PFloat S754_nan)
                     else PFloat <$> parse_float s)
            (float_cell repr_float c :: map (float_cell repr_float) cs)
          = Some (PFloat (read_back' c)
                    :: map (λ c, PFloat (read_back' c)) cs)) as ->; [|done].
  change (float_cell repr_float c :: map (float_cell repr_float) cs)
    with (map (float_cell repr_float) (c :: cs)).
  change (PFloat (read_back' c) :: map (λ c, PFloat (read_back' c)) cs)
    with (map (λ c, PFloat (read_back' c)) (c :: cs)).
  assert (Forall (λ c,
            (if missing (float_cell repr_float c)
             then Some (PFloat S754_nan)
             else PFloat <$> parse_float (float_cell repr_float c))
            = Some (PFloat (read_back' c))) (c :: cs)) as Hall.
  { constructor; [done|]. eapply Forall_impl; [exact Hcells|]. by intros ? []. }
  clear -Hall. induction Hall as [|c' cs' Hc _ IH]; [done|].
  cbn [map mapM]. rewrite Hc, IH. done.
Qed.

(** *** The export of a results frame *)

Local Abbreviation to_csv_text' :=
  (to_csv_text quotes_cr repr_float str_dict str_of_column).
Local Abbreviation read_csv_text' :=
  (read_csv_text parse_int parse_float pd_read_csv).
Local Abbreviation reads_back' :=
  (reads_back parse_int parse_float quotes_cr repr_float str_dict).

(** The fields written for a record whose text is [t]. *)
Local Abbreviation fields_of t r :=
  [t; predicted_category r; float_cell repr_float (confidence r);
   str_dict (raw_probabilities r)].

Lemma cells_of_record (t : str) (r : result) :
  map (cell repr_float str_dict t r) result_keys = fields_of t r.
Proof.
  unfold cell.
  generalize (predicted_category r) (float_cell repr_float (confidence r))
    (str_dict (raw_probabilities r)).
  intros. by vm_compute.
Qed.

Lemma header_row :
  writerow' result_keys
  = lit "text,predicted_category,confidence,raw_probabilities" ++ [LF].
Proof. destruct quotes_cr; by vm_compute. Qed.

Lemma header_clean : Forall (λ s, clean quotes_cr s = true) result_keys.
Proof. destruct quotes_cr; repeat constructor. Qed.

Lemma reads_back_inv (r : result) :
  reads_back' r = true →
  ∃ t, text r = PStr t
       ∧ clean quotes_cr t = true ∧ reads_as_text' t = true
       ∧ clean quotes_cr (predicted_category r) = true
       ∧ reads_as_text' (predicted_category r) = true
       ∧ clean quotes_cr (float_cell repr_float (confidence r)) = true
       ∧ (isnan (confidence r) = true
          ∨ reads_as_float' (repr_float (confidence r)) = true)
       ∧ clean quotes_cr (str_dict (raw_probabilities r)) = true.
Proof.
  unfold reads_back. intros H.
  repeat (apply andb_true_iff in H as [H ?]).
  destruct (text r) as [t| | | |]; try done.
  apply andb_true_iff in H as [? ?].
  exists t. repeat split; try done.
  - unfold float_cell. destruct (isnan (confidence r)).
    + by destruct quotes_cr.
    + match goal with H : _ || _ = true |- _ =>
        cbn [orb] in H; by apply andb_true_iff in H as [? ?] end.
  - destruct (isnan (confidence r)); [by left|right].
    match goal with H : _ || _ = true |- _ =>
      cbn [orb] in H; by apply andb_true_iff in H as [? ?] end.
Qed.

(** The text a record is written with. *)
Local Abbreviation text_of r :=
  (match text r with PStr t => t | _ => na_rep end).

Lemma to_csv_text_rows (results : list result) :
  results ≠ [] →
  Forall (λ r, reads_back' r = true) results →
  to_csv_text' (pd_DataFrame results)
  = concat (map writerow'
              (result_keys :: map (λ r, fields_of (text_of r) r) results)).
Proof.
  intros Hne Hall.
  assert (pd_DataFrame results = Frame result_keys results) as ->
    by by destruct results.
  unfold to_csv_text. cbn [df_columns df_rows map concat]. f_equal.
  assert (object_cells str_of_column (map text results)
          = map (λ r, text_of r) results) as ->.
  { unfold object_cells.
    assert (forallb (λ v, isinstance_str v || isna v) (map text results)
            = true) as ->.
    { apply forallb_forall. intros v Hv. apply in_map_iff in Hv as (r & <- & Hr).
      apply list_elem_of_In in Hr.
      apply (proj1 (Forall_forall _ _) Hall), reads_back_inv in Hr
        as (t & -> & _). done. }
    by rewrite map_map. }
  clear Hne Hall. f_equal.
  induction results as [|r results IH]; [done|].
  cbn [map zip_with]. by rewrite IH, cells_of_record.
Qed.

Lemma tokenize_export (results : list result) :
  results ≠ [] →
  Forall (λ r, reads_back' r = true) results →
  tokenize (to_csv_text' (pd_DataFrame results))
  = (result_keys :: map (λ r, fields_of (text_of r) r) results, At_end).
Proof.
  intros Hne Hall. rewrite to_csv_text_rows by done.
  apply tok_rows. constructor.
  - split; [cbn; lia|apply header_clean].
  - apply Forall_map. eapply Forall_impl; [exact Hall|].
    intros r Hr. split; [cbn; lia|].
    apply reads_back_inv in Hr as (t & -> & ? & ? & ? & ? & ? & ? & ?).
    by repeat constructor.
Qed.

Lemma export_no_nul (results : list result) :
  results ≠ [] →
  Forall (λ r, reads_back' r = true) results →
  0%N ∉ to_csv_text' (pd_DataFrame results).
Proof.
  intros Hne Hall. rewrite to_csv_text_rows by done.
  assert (Forall (λ c, c ≠ 0%N)
            (concat (map writerow'
               (result_keys
                  :: map (λ r, fields_of (text_of r) r) results)))) as Hdata.
  { apply Forall_concat, Forall_map. constructor.
    - apply writerow_Forall; [done..|].
      eapply Forall_impl; [apply header_clean|]. apply clean_no_nul.
    - apply Forall_map. eapply Forall_impl; [exact Hall|].
      intros r Hr. apply writerow_Forall; [done..|].
      apply reads_back_inv in Hr as (t & -> & ? & ? & ? & ? & ? & ? & ?).
      repeat constructor; by apply clean_no_nul. }
  intros Hin. by apply (proj1 (Forall_forall _ _) Hdata) in Hin.
Qed.


End CsvFacts.



(** * Further properties of the script *)

(** ** The label map *)

Lemma invert_items_inv items : ∀ d i l,
  invert_items d items !! i = Some l → d !! i = Some l ∨ (l, i) ∈ items.
Proof.
  induction items as [|[k v] items IH]; intros d i l Hl; csimpl in *; [by left|].
  apply IH in Hl as [Hl|Hl]; [|right; by right].
  destruct (decide (v = i)) as [->|Hne].
  - rewrite lookup_insert_eq in Hl. injection Hl as ->. right. by left.
  - rewrite lookup_insert_ne in Hl by done. by left.
Qed.

Lemma invert_items_is_Some items : ∀ d i,
  is_Some (d !! i) ∨ i ∈ items.*2 → is_Some (invert_items d items !! i).
Proof.
  induction items as [|[k v] items IH]; intros d i Hi; csimpl in *.
  { destruct Hi as [Hi|Hi]; [done | by apply elem_of_nil in Hi]. }
  apply IH. destruct (decide (v = i)) as [->|Hne].
  - left. rewrite lookup_insert_eq. by eexists.
  - rewrite lookup_insert_ne by done.
    destruct Hi as [Hi|Hi]; [by left|]. right.
    by apply elem_of_cons in Hi as [->|Hi].
Qed.

Lemma invert_items_keep items : ∀ d i,
  i ∉ items.*2 → invert_items d items !! i = d !! i.
Proof.
  induction items as [|[k v] items IH]; intros d i Hi; csimpl in *; [done|].
  apply not_elem_of_cons in Hi as [Hne Hi].
  rewrite IH by done. by rewrite lookup_insert_ne.
Qed.

Lemma invert_items_lookup items : ∀ d i l,
  NoDup items.*2 → (l, i) ∈ items → invert_items d items !! i = Some l.
Proof.
  induction items as [|[k v] items IH]; intros d i l Hnd Hin; csimpl in *.
  { by apply elem_of_nil in Hin. }
  apply NoDup_cons in Hnd as [Hv Hnd].
  apply elem_of_cons in Hin as [[= -> ->]|Hin]; [|by apply IH].
  rewrite invert_items_keep by done. apply lookup_insert_eq.
Qed.

Lemma NoDup_fst_unique {A B} (l : list (A * B)) x y1 y2 :
  NoDup l.*1 → (x, y1) ∈ l → (x, y2) ∈ l → y1 = y2.
Proof.
  induction l as [|[a b] l IH]; intros Hnd H1 H2; csimpl in *.
  { by apply elem_of_nil in H1. }
  apply NoDup_cons in Hnd as [Ha Hnd].
  apply elem_of_cons in H1 as [H1|H1]; apply elem_of_cons in H2 as [H2|H2].
  - congruence.
  - injection H1 as -> ->. destruct Ha.
    apply list_elem_of_fmap. by exists (a, y2).
  - injection H2 as -> ->. destruct Ha.
    apply list_elem_of_fmap. by exists (a, y1).
  - by apply IH.
Qed.

(** X1.  The label map the script builds by inverting the pickled
    dictionary (whose keys, the names, are pairwise different) names no index
    twice with the same name, holds only pairs of the dictionary, names
    every index of the dictionary, and, when the indices are pairwise
    different too, holds every pair of the dictionary. *)
Theorem inverted_label_map (items : list (list N * nat)) :
  NoDup items.*1 →
  let id_to_label := invert_items ∅ items in
  (∀ i j l, id_to_label !! i = Some l → id_to_label !! j = Some l → i = j)
  ∧ (∀ i l, id_to_label !! i = Some l → (l, i) ∈ items)
  ∧ (∀ i, i ∈ items.*2 → is_Some (id_to_label !! i))
  ∧ (NoDup items.*2 → ∀ i l, (l, i) ∈ items → id_to_label !! i = Some l).
Proof.
  intros Hnd id_to_label.
  assert (∀ i l, id_to_label !! i = Some l → (l, i) ∈ items) as Hinv.
  { intros i l [Hl|Hl]%invert_items_inv; [done | done]. }
  split; [|split; [done|split]].
  - intros i j l Hi%Hinv Hj%Hinv. by eapply NoDup_fst_unique.
  - intros i Hi. apply invert_items_is_Some. by right.
  - intros Hnd2 i l Hin. by apply invert_items_lookup.
Qed.

(** ** Loading *)

Section LoadingFacts.
Context {tokenizer_t model_t : Type}.
Variable path_exists : str → bool.
Variable cuda_is_available : bool.
Variable load_items : str → exn + list (list N * nat).
Variable tokenizer_from_pretrained : str → exn + tokenizer_t.
Variable model_from_pretrained : str → device → exn + model_t.

Local Abbreviation load :=
  (load_model_and_tokenizer path_exists cuda_is_available load_items
     tokenizer_from_pretrained model_from_pretrained).

(** X2.  Loading never passes an exception on to the script.  It either
    returns, without having rendered anything or touched the session, the
    model and tokenizer with the inverted label map and the device chosen
    by the availability of CUDA, or it renders exactly one error message
    and stops the script; with a model file missing it stops with the
    message for missing files. *)
Theorem load_reports_and_stops (w : world) :
  match (load w).1 with
  | Done (model, tokenizer, id_to_label, dev) =>
      (load w).2 = w
      ∧ path_exists MODEL_DIR = true ∧ path_exists LABEL_MAP_FILE = true
      ∧ dev = (if cuda_is_available then cuda else cpu)
      ∧ (∃ items, load_items LABEL_MAP_FILE = inr items
                  ∧ id_to_label = invert_items ∅ items)
      ∧ tokenizer_from_pretrained MODEL_DIR = inr tokenizer
      ∧ model_from_pretrained MODEL_DIR dev = inr model
  | Raised _ => False
  | Stopped =>
      ∃ body,
        (load w).2 =
          World (session_state w) (page w ++ [st_error body]) (predictions w)
        ∧ (path_exists MODEL_DIR && path_exists LABEL_MAP_FILE = false →
           body = model_files_not_found)
  end.
Proof.
  unfold load_model_and_tokenizer, try_except, mbind, app_bind.
  destruct (path_exists MODEL_DIR) eqn:Hdir,
    (path_exists LABEL_MAP_FILE) eqn:Hmap; cbn;
    try by (eexists; split; [reflexivity | done]).
  destruct (load_items LABEL_MAP_FILE) as [e|items]; cbn.
  { eexists. split; [reflexivity | done]. }
  destruct (tokenizer_from_pretrained MODEL_DIR) as [e|tokenizer]; cbn.
  { eexists. split; [reflexivity | done]. }
  destruct (model_from_pretrained MODEL_DIR _) as [e|model] eqn:Hmodel; cbn.
  { eexists. split; [reflexivity | done]. }
  destruct w. repeat split; try done. by exists items.
Qed.

End LoadingFacts.

Lemma inverted_label_map_witness :
  let items := [(lit "World", 0); (lit "Sports", 1)] in
  let id_to_label := invert_items ∅ items in
  (∀ i j l, id_to_label !! i = Some l → id_to_label !! j = Some l → i = j)
  ∧ (∀ i l, id_to_label !! i = Some l → (l, i) ∈ items)
  ∧ (∀ i, i ∈ items.*2 → is_Some (id_to_label !! i))
  ∧ (NoDup items.*2 → ∀ i l, (l, i) ∈ items → id_to_label !! i = Some l).
Proof.
  intros items id_to_label. apply (inverted_label_map items).
  apply (bool_decide_unpack _). by vm_compute.
Defined.

(** ** The reset callback *)

Lemma lit_inj (s1 s2 : string) : lit s1 = lit s2 → s1 = s2.
Proof.
  unfold lit. intros Heq.
  rewrite <-(String.string_of_list_ascii_of_string s1),
    <-(String.string_of_list_ascii_of_string s2). f_equal.
  revert Heq.
  generalize (String.list_ascii_of_string s1)
    (String.list_ascii_of_string s2).
  induction l as [|c l IH]; intros [|c' l'] Heq; simpl in Heq; try done.
  injection Heq as Hc Hl. f_equal; [|by apply IH].
  apply Nat2N.inj in Hc.
  by rewrite <-(Ascii.ascii_nat_embedding c), <-(Ascii.ascii_nat_embedding c'),
    Hc.
Qed.

(** X3.  The key of the upload widget determines the counter, so pressing
    Clear, which adds one to the counter, gives the widget a key it had
    not before; the callback also empties the text area and drops the
    stored results, and leaves the page and the recorded calls alone. *)
Theorem clear_gives_fresh_uploader_key (w : world) :
  let w' := (clear_inputs_and_results w).2 in
  (∀ s1 s2, file_uploader_key s1 = file_uploader_key s2 →
            uploader_key_counter s1 = uploader_key_counter s2)
  ∧ file_uploader_key (session_state w') ≠ file_uploader_key (session_state w)
  ∧ text_input_single (session_state w') = []
  ∧ results_df (session_state w') = None
  ∧ page w' = page w ∧ predictions w' = predictions w.
Proof.
  intros w'.
  assert (∀ s1 s2, file_uploader_key s1 = file_uploader_key s2 →
            uploader_key_counter s1 = uploader_key_counter s2) as Hinj.
  { intros s1 s2 Hkey. unfold file_uploader_key, str_of_nat in Hkey.
    apply app_inv_head, lit_inj in Hkey. by apply (inj pretty). }
  split; [done|]. split; [|done].
  intros Hkey%Hinj. simpl in Hkey. lia.
Qed.

Section ClearFacts.
Context {encoding : Type}.
Variable loaded_tokenizer : str → encoding.
Variable loaded_model : encoding → exn + list float.
Variable softmax : list float → list float.
Variable id_to_label_map : gmap nat (list N).
Variable pd_read_csv : bytes → exn + csv_frame.
Variable repr_float : float → str.
Variable to_csv : DataFrame → bytes.

(** X4.  In the run after Clear, with the upload widget empty under its
    new key, the first tab renders its header only, whether or not the
    Classify button is reported clicked, and the second tab its header
    and the upload hint only: no earlier result is displayed, nothing is
    predicted, and a results frame that made the filter raise is gone. *)
Theorem run_after_clear_shows_nothing (ui : widgets) (w : world) :
  uploaded_file ui = None →
  let w1 := (clear_inputs_and_results w).2 in
  tab1 loaded_tokenizer loaded_model softmax id_to_label_map ui w1
  = (Done (),
     World (session_state w1)
       (page w ++ [st_header (lit "Analyze a Single Article")])
       (predictions w))
  ∧ tab2 loaded_tokenizer loaded_model softmax id_to_label_map
      pd_read_csv repr_float to_csv ui w1
    = (Done (),
       World (session_state w1)
         (page w ++
            [st_header (lit "Analyze a Batch of Articles");
             st_markdown (lit "Upload a **TXT** (one article per line) or **CSV** (must contain a 'text' column) file.")])
         (predictions w)).
Proof.
  intros Hfile w1. split.
  - unfold tab1, mbind, app_bind, render, get_session. cbn.
    unfold st_button. by rewrite andb_false_r.
  - unfold tab2, show_results, mbind, app_bind, render, get_session. cbn.
    rewrite Hfile. cbn. by rewrite <-app_assoc.
Qed.

End ClearFacts.

Lemma run_after_clear_shows_nothing_witness :
  let ui := Widgets float_zero 100 None true false in
  let w := World (Session (lit "Stocks rally") 3 (Some (pd_DataFrame [])))
             [] [] in
  (tab2 Demo.tokenizer Demo.model Demo.softmax Demo.labels
     Demo.read_csv Demo.repr_float Demo.to_csv ui w).1
  = Raised (KeyError "confidence")
  ∧ (tab2 Demo.tokenizer Demo.model Demo.softmax Demo.labels
       Demo.read_csv Demo.repr_float Demo.to_csv ui
       (clear_inputs_and_results w).2).1
    = Done ().
Proof.
  intros ui w. split; [by vm_compute|].
  by rewrite (proj2 (run_after_clear_shows_nothing
                       Demo.tokenizer Demo.model Demo.softmax Demo.labels
                       Demo.read_csv Demo.repr_float Demo.to_csv
                       ui w eq_refl)).
Defined.

(** ** More on the prediction wrapper and the first tab *)

Section ClassifyFacts.
Context {encoding : Type}.
Variable loaded_tokenizer : str → encoding.
Variable loaded_model : encoding → exn + list float.
Variable softmax : list float → list float.
Variable id_to_label_map : gmap nat (list N).

Local Abbreviation predict :=
  (predict_category loaded_tokenizer loaded_model softmax id_to_label_map).
Local Abbreviation classify_text :=
  (classify loaded_tokenizer loaded_model softmax id_to_label_map).

(** X5.  [predict_category] on two lists one after the other is
    [predict_category] on the first and then on the second: the results
    are joined, and the first exception met, in list order, is the one
    raised. *)
Theorem predict_category_app (l1 l2 : list pyval) :
  predict (l1 ++ l2) =
    match predict l1 with
    | inl e => inl e
    | inr rs1 =>
        match predict l2 with
        | inl e => inl e
        | inr rs2 => inr (rs1 ++ rs2)
        end
    end.
Proof. rewrite !predict_category_records. apply records_for_app. Qed.

(** X6.  With a label map that names every class index with a name of
    its own, the category of a classified text is a key of its
    [raw_probabilities], and the probability stored under it is the
    confidence: category and confidence belong to the same class. *)
Theorem category_probability_is_confidence (s : str) (r : result)
    (probabilities : list float) :
  classify_text s = inr r →
  probabilities_of loaded_tokenizer loaded_model softmax s
  = inr probabilities →
  (∀ j, j < length probabilities → is_Some (id_to_label_map !! j)) →
  (∀ j k l, id_to_label_map !! j = Some l →
            id_to_label_map !! k = Some l → j = k) →
  raw_probabilities r !! predicted_category r = Some (confidence r)
  ∧ size (raw_probabilities r) = length probabilities.
Proof.
  intros Hr Hprobs Htotal Hinj.
  apply classify_inv in Hr as (probs & k & Hprobs' & Hk & Hconf & Hcat & Hraw).
  rewrite Hprobs in Hprobs'. injection Hprobs' as <-.
  pose proof (label_keys_NoDup _ _ Htotal Hinj) as Hnd.
  destruct (Htotal k) as [l Hl]; [by eapply lookup_lt_Some|].
  split.
  - rewrite Hcat, Hl, Hraw. simpl.
    replace l with (label_or_L id_to_label_map (0 + k))
      by (unfold label_or_L; simpl; by rewrite Hl).
    by apply dict_of_enumerate_lookup.
  - rewrite Hraw. clear -Hnd.
    enough (∀ row d i,
      NoDup (label_or_L id_to_label_map <$> seq i (length row)) →
      (∀ j, j ∈ seq i (length row) → d !! label_or_L id_to_label_map j = None) →
      size (dict_of_enumerate id_to_label_map d i row)
      = size d + length row) as Hsize.
    { rewrite Hsize; [by rewrite map_size_empty | done | done]. }
    induction row as [|p row IH]; intros d i Hnd' Hfresh; csimpl in *; [lia|].
    apply NoDup_cons in Hnd' as [Hnotin Hnd'].
    rewrite IH; [| done |].
    + rewrite map_size_insert_None; [lia|]. apply Hfresh. by left.
    + intros j Hj. rewrite lookup_insert_ne.
      * apply Hfresh. by right.
      * intros Heq. apply Hnotin. rewrite Heq.
        apply list_elem_of_fmap. by exists j.
Qed.

(** X7.  When the Classify button fires on a text whose stripped form
    has at least ten characters, the first tab calls [predict_category]
    once, on that text alone.  If the call returns, the tab renders the
    result header, the category as a success when the confidence reaches
    the threshold and as a warning otherwise, the confidence and the
    probability chart; if it raises, the exception leaves the tab with
    nothing of a result rendered. *)
Theorem long_input_is_classified (ui : widgets) (w : world) :
  let user_input_single := text_input_single (session_state w) in
  classify_clicked ui = true →
  10 ≤ length (strip user_input_single) →
  tab1 loaded_tokenizer loaded_model softmax id_to_label_map ui w =
    let called := predictions w ++ [[PStr user_input_single]] in
    let header := st_header (lit "Analyze a Single Article") in
    match classify_text user_input_single with
    | inl e =>
        (Raised e, World (session_state w) (page w ++ [header]) called)
    | inr r =>
        (Done (),
         World (session_state w)
           (page w ++
              [header;
               st_subheader (lit "Classification Result");
               (if float_ge (confidence r) (confidence_threshold ui) then
                  st_success
                    (lit "**Category: " ++ predicted_category r ++ lit "**")
                else
                  st_warning
                    (lit "**Category: " ++ predicted_category r
                       ++ lit "** (Confidence below threshold)"));
               st_metric (lit "Confidence Score") (confidence r);
               st_probability_chart (raw_probabilities r)])
           called)
    end.
Proof.
  intros user_input_single Hclick Hlong.
  assert (strip user_input_single ≠ []) as Hstrip.
  { intros Heq. rewrite Heq in Hlong. simpl in Hlong. lia. }
  assert (truthy user_input_single = true) as Hinput.
  { destruct user_input_single; [by destruct Hstrip | done]. }
  unfold tab1, mbind, app_bind, render, get_session. cbn.
  fold user_input_single. unfold st_button. rewrite Hclick, Hinput. cbn.
  destruct (Nat.leb_spec (length (strip user_input_single)) 9); [lia|].
  unfold call_predict_category. rewrite predict_category_records. cbn.
  rewrite record_for_valid by done.
  destruct (classify_text user_input_single) as [e|r]; cbn; [done|].
  destruct (float_ge _ _); cbn; by rewrite <-!app_assoc.
Qed.

End ClassifyFacts.

Lemma category_probability_is_confidence_witness :
  let r := Result (PStr (lit "abc")) (lit "Sports") Demo.three_quarters
             (<[lit "World" := Demo.quarter]>
                (<[lit "Sports" := Demo.three_quarters]> ∅)) in
  raw_probabilities r !! predicted_category r = Some (confidence r)
  ∧ size (raw_probabilities r) = 2.
Proof.
  intros r.
  apply (category_probability_is_confidence
           Demo.tokenizer Demo.model Demo.softmax Demo.labels
           (lit "abc") r [Demo.quarter; Demo.three_quarters]).
  - by vm_compute.
  - reflexivity.
  - intros j Hj. rewrite demo_labels_lookup.
    destruct j as [|[|j]]; [by eexists..|simpl in Hj; lia].
  - apply demo_labels_inj.
Defined.

Lemma long_input_is_classified_witness :
  let ui := Widgets Demo.half 100 None true false in
  let w := World (Session (lit "  Stocks rally on Wall Street ") 0 None)
             [] [] in
  tab1 Demo.tokenizer Demo.model Demo.softmax Demo.labels ui w
  = (Done (),
     World (session_state w)
       [st_header (lit "Analyze a Single Article");
        st_subheader (lit "Classification Result");
        st_success (lit "**Category: World**");
        st_metric (lit "Confidence Score") Demo.three_quarters;
        st_probability_chart
          (<[lit "World" := Demo.three_quarters]>
             (<[lit "Sports" := Demo.quarter]> ∅))]
       [[PStr (lit "  Stocks rally on Wall Street ")]]).
Proof.
  intros ui w.
  rewrite (long_input_is_classified
             Demo.tokenizer Demo.model Demo.softmax Demo.labels ui w).
  - by vm_compute.
  - reflexivity.
  - vm_compute. lia.
Defined.

(** ** The sections of [np.array_split] *)

Section ArraySplitSizes.
Context {A : Type}.

Lemma sum_list_take_le (sizes : list nat) n :
  sum_list (take n sizes) ≤ sum_list sizes.
Proof.
  rewrite <-(take_drop n sizes) at 2. rewrite sum_list_with_app. lia.
Qed.

Lemma length_slice (l : list A) a b :
  a ≤ b → b ≤ length l → length (slice a b l) = b - a.
Proof. intros Hab Hb. unfold slice. rewrite length_take, length_drop. lia. Qed.

(** X8.  The sections [np.array_split] returns are near-equal: of
    [Ntotal] entries in [Nsections] sections, the first
    [Ntotal % Nsections] sections have [Ntotal // Nsections + 1] entries
    and the others [Ntotal // Nsections]. *)
Theorem array_split_lengths (sary : list A) (Nsections : nat) chunks i c :
  array_split sary Nsections = inr chunks →
  chunks !! i = Some c →
  i < Nsections
  ∧ length c = length sary / Nsections
               + (if i <? length sary mod Nsections then 1 else 0).
Proof.
  unfold array_split. destruct (Nat.eqb_spec Nsections 0) as [|HN]; [done|].
  intros [= <-].
  set (q := length sary / Nsections).
  set (extras := length sary mod Nsections).
  set (sizes := replicate extras (q + 1) ++ replicate (Nsections - extras) q).
  assert (extras < Nsections) as Hextras by by apply Nat.mod_upper_bound.
  assert (length sizes = Nsections) as Hlen.
  { unfold sizes. rewrite length_app, !length_replicate. lia. }
  assert (sum_list sizes = length sary) as Hsum.
  { unfold sizes. rewrite sum_list_with_app, !sum_list_replicate.
    pose proof (Nat.div_mod (length sary) Nsections HN) as Hdiv.
    fold q extras in Hdiv. nia. }
  rewrite list_lookup_fmap. intros Hc.
  destruct (seq 0 Nsections !! i) as [j|] eqn:Hj; [|done].
  apply lookup_seq in Hj as [-> Hi].
  assert (c = slice (nth i (cumsum ([0] ++ sizes)) 0)
                (nth (S i) (cumsum ([0] ++ sizes)) 0) sary) as ->.
  { simpl in Hc. injection Hc as <-. reflexivity. }
  split; [done|].
  rewrite !div_points_nth by lia.
  assert (sizes !! i = Some (q + (if i <? extras then 1 else 0))) as Hsize.
  { unfold sizes. destruct (Nat.ltb_spec i extras).
    - rewrite lookup_app_l by (rewrite length_replicate; lia).
      by apply lookup_replicate_2.
    - rewrite lookup_app_r by (rewrite length_replicate; lia).
      rewrite Nat.add_0_r. apply lookup_replicate_2.
      rewrite length_replicate. lia. }
  pose proof (sum_list_take_S _ _ _ Hsize) as HS.
  pose proof (sum_list_take_le sizes (S i)) as Hle.
  rewrite length_slice by lia. lia.
Qed.

(** X9.  The batch is split in [max(1, n // 10)] chunks.  With fewer than
    ten texts that is one chunk with all of them; with ten or more, every
    chunk has at least ten and at most nineteen texts. *)
Theorem batch_chunk_sizes (texts : list A) chunks :
  array_split texts (max 1 (length texts / 10)) = inr chunks →
  length chunks = max 1 (length texts / 10)
  ∧ (length texts < 10 → chunks = [texts])
  ∧ (10 ≤ length texts → Forall (λ c, 10 ≤ length c ≤ 19) chunks).
Proof.
  intros Hsplit.
  destruct (array_split_concat texts (max 1 (length texts / 10)))
    as (chunks' & Hsplit' & Hlen & Hcat); [lia|].
  rewrite Hsplit in Hsplit'. injection Hsplit' as <-.
  split; [done|]. split.
  - intros Hshort. rewrite Nat.div_small in Hlen by done.
    destruct chunks as [|c [|c' chunks]]; try done.
    simpl in Hcat. by rewrite app_nil_r in Hcat; subst.
  - intros Hlong. apply Forall_lookup. intros i c Hc.
    destruct (array_split_lengths _ _ _ _ _ Hsplit Hc) as [Hi ->].
    set (n := length texts) in *.
    assert (1 ≤ n / 10) as Hk.
    { apply Nat.div_le_lower_bound; lia. }
    replace (max 1 (n / 10)) with (n / 10) in * by lia.
    set (k := n / 10) in *.
    assert (10 * k ≤ n < 10 * k + 10) as [Hlo Hhi].
    { pose proof (Nat.div_mod n 10 ltac:(lia)) as Hdm.
      pose proof (Nat.mod_upper_bound n 10 ltac:(lia)). fold k in Hdm. lia. }
    assert (k * (n / k) ≤ n < k * (n / k) + k) as [Hqlo Hqhi].
    { pose proof (Nat.div_mod n k ltac:(lia)) as Hdm.
      pose proof (Nat.mod_upper_bound n k ltac:(lia)). lia. }
    assert (10 ≤ n / k) as Hq.
    { apply Nat.div_le_lower_bound; lia. }
    destruct (decide (k = 1)) as [Hk1|Hk1].
    + rewrite Hk1 in *. rewrite Nat.mod_1_r, Nat.div_1_r. simpl. lia.
    + assert (n / k ≤ 14) as Hq14 by nia.
      destruct (i <? n mod k); lia.
Qed.

End ArraySplitSizes.

Lemma array_split_lengths_witness :
  1 < 3
  ∧ length [4; 5; 6] = length (seq 0 10) / 3
                       + (if 1 <? length (seq 0 10) mod 3 then 1 else 0).
Proof.
  apply (array_split_lengths (seq 0 10) 3
           [[0; 1; 2; 3]; [4; 5; 6]; [7; 8; 9]] 1 [4; 5; 6]);
    reflexivity.
Defined.

Lemma batch_chunk_sizes_witness :
  let chunks := [seq 0 13; seq 13 12] in
  length chunks = max 1 (length (seq 0 25) / 10)
  ∧ (length (seq 0 25) < 10 → chunks = [seq 0 25])
  ∧ (10 ≤ length (seq 0 25) → Forall (λ c, 10 ≤ length c ≤ 19) chunks).
Proof.
  intros chunks. apply (batch_chunk_sizes (seq 0 25) chunks). reflexivity.
Defined.

(** ** The filtered display *)

Lemma value_counts_lookup (values : list (list N)) (c : str) :
  value_counts values !! c =
    if occurrences c values =? 0 then None else Some (occurrences c values).
Proof.
  unfold occurrences. induction values as [|v values IH]; simpl; [done|].
  destruct (decide (v = c)) as [->|Hne].
  - rewrite lookup_insert_eq, bool_decide_eq_true_2 by done. simpl.
    rewrite IH. by destruct (length _).
  - rewrite lookup_insert_ne, bool_decide_eq_false_2 by done. apply IH.
Qed.

(** X10.  For a stored frame of at least one result, the counts the
    second tab charts give each category the number of rows that meet the
    threshold and are predicted in that category, and list no category
    without such a row. *)
Theorem category_counts_of_kept_rows (results : list result) threshold :
  results ≠ [] →
  ∃ kept counts,
    filter_confidence (pd_DataFrame results) threshold = inr kept
    ∧ category_value_counts kept = inr counts
    ∧ ∀ c,
        counts !! c =
          let n :=
            length (List.filter
                      (λ r, float_ge (confidence r) threshold
                            && bool_decide (predicted_category r = c))
                      results) in
          if n =? 0 then None else Some n.
Proof.
  intros Hne. eexists _, _.
  split; [by apply filter_confidence_nonempty|].
  unfold category_value_counts. cbn [df_columns df_rows].
  rewrite bool_decide_eq_true_2 by (unfold result_keys; set_solver).
  split; [reflexivity|]. intros c. rewrite value_counts_lookup. cbn zeta.
  replace (occurrences c _) with
    (length (List.filter
               (λ r, float_ge (confidence r) threshold
                     && bool_decide (predicted_category r = c)) results));
    [done|].
  unfold occurrences. clear Hne.
  induction results as [|r rs IH]; simpl; [done|].
  destruct (float_ge (confidence r) threshold); simpl; [|done].
  destruct (bool_decide _); simpl; by rewrite IH.
Qed.

(** X11.  On the frame of at least one result the confidence filter
    returns the frame's columns with, in their order, exactly the rows
    whose confidence is at least the threshold: all rows at threshold 0.0
    when no confidence is negative or a NaN, and none at a threshold
    above every confidence. *)
Theorem confidence_filter_on_results (results : list result) threshold :
  results ≠ [] →
  ∃ kept,
    filter_confidence (pd_DataFrame results) threshold = inr kept
    ∧ df_columns kept = df_columns (pd_DataFrame results)
    ∧ sublist (df_rows kept) results
    ∧ (∀ r, r ∈ df_rows kept ↔
            r ∈ results ∧ float_ge (confidence r) threshold = true)
    ∧ (threshold = float_zero →
       Forall (λ r, SFleb float_zero (confidence r) = true) results →
       df_rows kept = results)
    ∧ (Forall (λ r, SFltb (confidence r) threshold = true) results →
       df_rows kept = []).
Proof.
  intros Hne. eexists. split; [by apply filter_confidence_nonempty|].
  cbn [df_columns df_rows]. split; [by destruct results|]. split; [|split].
  - clear Hne. induction results as [|r rs IH]; simpl; [done|].
    destruct (float_ge _ _); by constructor.
  - intros r. by rewrite !list_elem_of_In, filter_In.
  - split.
    + intros -> Hpos. by apply filter_all.
    + intros Hlt. apply filter_none.
      eapply Forall_impl; [exact Hlt|]. intros r Hr. by apply SFltb_not_leb.
Qed.

(** X12.  Raising the threshold never brings a row back: the rows kept at
    a threshold are among the rows kept at any lower one, in order. *)
Theorem confidence_filter_monotone (df : DataFrame) low high
    kept_low kept_high :
  SFleb low high = true →
  filter_confidence df low = inr kept_low →
  filter_confidence df high = inr kept_high →
  sublist (df_rows kept_high) (df_rows kept_low).
Proof.
  intros Hle. unfold filter_confidence.
  destruct (bool_decide _); [|done]. intros [= <-] [= <-]. cbn [df_rows].
  induction (df_rows df) as [|r rs IH]; simpl; [done|].
  unfold float_ge in *.
  destruct (SFleb high (confidence r)) eqn:Hhigh.
  - rewrite (SFleb_trans _ _ _ Hle Hhigh). by constructor.
  - destruct (SFleb low (confidence r)); [by constructor | done].
Qed.

(** X13.  At a threshold above 0.0 no "Invalid/Empty" row is kept, and no
    row at all whose confidence is a NaN. *)
Theorem invalid_rows_are_filtered_out (results : list result) threshold kept :
  SFltb float_zero threshold = true →
  filter_confidence (pd_DataFrame results) threshold = inr kept →
  ∀ r, r ∈ df_rows kept →
       isnan (confidence r) = false ∧ ∀ t, r ≠ sentinel t.
Proof.
  intros Hpos Hkept r Hr.
  destruct (decide (results = [])) as [->|Hne]; [done|].
  rewrite filter_confidence_nonempty in Hkept by done.
  injection Hkept as <-. cbn [df_rows] in Hr.
  apply list_elem_of_In, filter_In in Hr as [_ Hge]. unfold float_ge in Hge.
  split; [by eapply SFleb_not_nan|].
  intros t ->. cbn [confidence sentinel] in Hge.
  apply SFltb_not_leb in Hpos. congruence.
Qed.

Lemma category_counts_of_kept_rows_witness :
  ∃ kept counts,
    filter_confidence (pd_DataFrame Demo.results) Demo.half = inr kept
    ∧ category_value_counts kept = inr counts
    ∧ counts !! lit "World" = Some 1
    ∧ counts !! lit "Invalid/Empty" = None.
Proof.
  destruct (category_counts_of_kept_rows Demo.results Demo.half)
    as (kept & counts & Hkept & Hcounts & Hlookup); [done|].
  exists kept, counts. split; [done|]. split; [done|].
  by rewrite !Hlookup.
Defined.

Lemma confidence_filter_on_results_witness :
  ∃ kept,
    filter_confidence (pd_DataFrame Demo.results) Demo.half = inr kept
    ∧ length (df_rows kept) = 2.
Proof.
  destruct (confidence_filter_on_results Demo.results Demo.half)
    as (kept & Hkept & _); [done|].
  exists kept. split; [done|].
  rewrite filter_confidence_nonempty in Hkept by done.
  by injection Hkept as <-.
Defined.

Lemma confidence_filter_monotone_witness :
  sublist
    (List.filter (λ r, float_ge (confidence r) Demo.one) Demo.results)
    (List.filter (λ r, float_ge (confidence r) Demo.half) Demo.results).
Proof.
  apply (confidence_filter_monotone (pd_DataFrame Demo.results)
           Demo.half Demo.one
           (Frame result_keys
              (List.filter (λ r, float_ge (confidence r) Demo.half)
                 Demo.results))
           (Frame result_keys
              (List.filter (λ r, float_ge (confidence r) Demo.one)
                 Demo.results)));
    by vm_compute.
Defined.

Lemma invalid_rows_are_filtered_out_witness :
  Forall (λ r, isnan (confidence r) = false ∧ ∀ t, r ≠ sentinel t)
    (List.filter (λ r, float_ge (confidence r) Demo.quarter) Demo.results).
Proof.
  apply Forall_forall.
  apply (invalid_rows_are_filtered_out Demo.results Demo.quarter
           (Frame result_keys
              (List.filter (λ r, float_ge (confidence r) Demo.quarter)
                 Demo.results)));
    by vm_compute.
Defined.

(** ** The second tab, step by step *)

Section TabFacts.
Context {encoding : Type}.
Variable loaded_tokenizer : str → encoding.
Variable loaded_model : encoding → exn + list float.
Variable softmax : list float → list float.
Variable id_to_label_map : gmap nat (list N).
Variable pd_read_csv : bytes → exn + csv_frame.
Variable repr_float : float → str.
Variable to_csv : DataFrame → bytes.

Local Abbreviation predict :=
  (predict_category loaded_tokenizer loaded_model softmax id_to_label_map).
Local Abbreviation run_chunks :=
  (chunk_loop loaded_tokenizer loaded_model softmax id_to_label_map).
Local Abbreviation run_batch :=
  (batch_results loaded_tokenizer loaded_model softmax id_to_label_map).
Local Abbreviation analysis :=
  (run_analysis loaded_tokenizer loaded_model softmax id_to_label_map).
Local Abbreviation parse := (parse_upload pd_read_csv repr_float).
Local Abbreviation process :=
  (process_upload loaded_tokenizer loaded_model softmax id_to_label_map
     pd_read_csv repr_float).
Local Abbreviation run_tab2 :=
  (tab2 loaded_tokenizer loaded_model softmax id_to_label_map
     pd_read_csv repr_float to_csv).

(** The progress messages of the chunk loop. *)
Lemma chunk_loop_trace num_chunks ntexts chunks : ∀ i results w,
  ∃ new n,
    (run_chunks num_chunks ntexts i results chunks w).2
    = World (session_state w) (page w ++ new)
        (predictions w ++ map (map PStr) (take n chunks))
    ∧ Forall (λ e, ∃ d body, e = st_progress d num_chunks body
                             ∧ i < d ≤ i + length chunks) new
    ∧ ∀ final,
        (run_chunks num_chunks ntexts i results chunks w).1 = Done final →
        chunks ≠ [] →
        last new =
          Some (st_progress (i + length chunks) num_chunks
                  (lit "Processing... " ++ str_of_nat (length final)
                     ++ lit "/" ++ str_of_nat ntexts
                     ++ lit " articles classified.")).
Proof.
  induction chunks as [|text_chunk rest IH]; intros i results w.
  { exists [], 0. cbn. rewrite !app_nil_r. by destruct w. }
  cbn [chunk_loop]. unfold mbind, app_bind, call_predict_category.
  destruct (predict_category _ _ _ _ _) as [e|rs]; cbn [lift raise mret app_ret].
  { exists [], 1. cbn [snd fst take map]. rewrite take_0, app_nil_r.
    split; [done|]. split; [constructor|]. intros final Ho. by cbn in Ho. }
  unfold render. cbn [session_state page predictions].
  match goal with
  | |- context [chunk_loop _ _ _ _ ?nc ?nt ?j ?acc rest ?w'] =>
      destruct (IH j acc w') as (new & n & Hw & Hnew & Hlast);
      destruct (chunk_loop _ _ _ _ nc nt j acc rest w') as [o w2] eqn:Hrun
  end.
  cbn [snd fst] in *. subst w2. cbn [session_state page predictions].
  eexists (_ :: new), (S n). split; [|split].
  - cbn [take map]. by rewrite <-!app_assoc.
  - constructor.
    + eexists _, _. split; [reflexivity|]. cbn [length]. lia.
    + eapply Forall_impl; [exact Hnew|].
      intros e (d & body & -> & Hd). eexists _, _. split; [done|].
      cbn [length]. lia.
  - intros final Ho _. destruct o as [final'| |]; try done.
    injection Ho as ->.
    destruct rest as [|c rest'].
    + cbn in Hrun. injection Hrun as <- _.
      destruct new as [|e new]; [|by apply Forall_cons in Hnew as [(?&?&_&?) _];
                                    simpl in *; lia].
      cbn [last length]. by rewrite Nat.add_1_r.
    + rewrite last_cons, (Hlast final eq_refl) by done.
      cbn [length]. do 2 f_equal. lia.
Qed.

(** The batch, with what it renders and records. *)
Lemma batch_results_run (texts : list str) (w : world) :
  let num_chunks := max 1 (length texts / 10) in
  ∃ new calls,
    run_batch texts w
    = (outcome_of (predict (map PStr (np_asarray texts))),
       World (session_state w) (page w ++ new) (predictions w ++ calls))
    ∧ Forall (λ e, ∃ d body, e = st_progress d num_chunks body
                             ∧ 1 ≤ d ≤ num_chunks) new
    ∧ ∀ results,
        predict (map PStr (np_asarray texts)) = inr results →
        length results = length texts
        ∧ last new =
            Some (st_progress num_chunks num_chunks
                    (lit "Processing... " ++ str_of_nat (length texts)
                       ++ lit "/" ++ str_of_nat (length texts)
                       ++ lit " articles classified.")).
Proof.
  intros num_chunks.
  pose proof (batch_results_outcome loaded_tokenizer loaded_model softmax
                id_to_label_map texts w) as Hout.
  unfold batch_results in *.
  destruct (array_split_concat (np_asarray texts) num_chunks)
    as (chunks & Hsplit & Hlen & Hcat); [unfold num_chunks; lia|].
  fold num_chunks in Hout |- *. unfold mbind, app_bind in *.
  rewrite Hsplit in *. cbn [lift mret app_ret] in *.
  destruct (chunk_loop_trace num_chunks (length texts) chunks 0 [] w)
    as (new & n & Hw & Hnew & Hlast).
  destruct (run_chunks num_chunks (length texts) 0 [] chunks w)
    as [o w'] eqn:Hrun.
  cbn [fst snd] in *. subst o w'.
  exists new, (map (map PStr) (take n chunks)). split; [done|]. split.
  { eapply Forall_impl; [exact Hnew|].
    intros e (d & body & -> & Hd). eexists _, _. split; [done|]. lia. }
  intros results Hres.
  assert (length results = length texts) as Hn.
  { rewrite predict_category_records in Hres.
    apply records_for_inr, Forall2_length in Hres.
    unfold np_asarray in Hres. by rewrite !length_map in Hres. }
  split; [done|]. rewrite Hres in Hlast.
  rewrite (Hlast results eq_refl), Hlen, Hn; [done|].
  intros ->. simpl in Hlen. unfold num_chunks in Hlen. lia.
Qed.

(** X14.  The progress bar of a batch only moves forward within its
    range: every update the chunk loop renders is [d] of
    [max(1, n // 10)] chunks with [1 <= d <= max(1, n // 10)], nothing else
    is rendered and the session is not touched; when every chunk is
    predicted, the last update is the full bar, with the text that all
    [n] of [n] articles are classified. *)
Theorem batch_progress (texts : list str) (w : world) :
  let num_chunks := max 1 (length texts / 10) in
  ∃ new calls,
    run_batch texts w
    = (outcome_of (predict (map PStr (np_asarray texts))),
       World (session_state w) (page w ++ new) (predictions w ++ calls))
    ∧ Forall (λ e, ∃ d body, e = st_progress d num_chunks body
                             ∧ 1 ≤ d ≤ num_chunks) new
    ∧ ∀ results,
        predict (map PStr (np_asarray texts)) = inr results →
        length results = length texts
        ∧ last new =
            Some (st_progress num_chunks num_chunks
                    (lit "Processing... " ++ str_of_nat (length texts)
                       ++ lit "/" ++ str_of_nat (length texts)
                       ++ lit " articles classified.")).
Proof. apply batch_results_run. Qed.

(** What parsing the upload comes to; only a CSV file without a [text]
    column renders something. *)
Lemma parse_upload_run (f : UploadedFile) (w : world) :
  parse f w =
    if endswith (name f) (lit ".txt") then
      (outcome_of (txt_texts (readlines (data f))), w)
    else if endswith (name f) (lit ".csv") then
      match pd_read_csv (data f) with
      | inl e => (Raised e, w)
      | inr df =>
          match column (lit "text") df with
          | None =>
              (Stopped,
               World (session_state w)
                 (page w ++
                    [st_error (lit "CSV file must contain a 'text' column.")])
                 (predictions w))
          | Some cells => (Done (dropna_astype_str repr_float cells), w)
          end
      end
    else (Raised (NameError "name 'texts' is not defined"), w).
Proof.
  unfold parse_upload. destruct (endswith _ (lit ".txt")).
  { by destruct (txt_texts _). }
  destruct (endswith _ (lit ".csv")); [|done].
  unfold mbind, app_bind. destruct (pd_read_csv _) as [e|df]; [done|].
  cbn. by destruct (column _ df).
Qed.

Lemma parse_upload_session (f : UploadedFile) (w : world) :
  session_state (parse f w).2 = session_state w
  ∧ predictions (parse f w).2 = predictions w.
Proof.
  rewrite parse_upload_run.
  destruct (endswith _ (lit ".txt")); [done|].
  destruct (endswith _ (lit ".csv")); [|done].
  destruct (pd_read_csv _) as [e|df]; [done|]. by destruct (column _ df).
Qed.

Lemma show_results_session (ui : widgets) (w : world) :
  session_state (show_results to_csv ui w).2 = session_state w.
Proof.
  unfold show_results, mbind, app_bind, get_session, render. cbn.
  destruct (results_df (session_state w)) as [df|]; [|done]. cbn.
  destruct (filter_confidence _ _) as [e|kept]; [done|]. cbn.
  destruct (category_value_counts _) as [e|counts]; [done|]. cbn.
  by destruct (bool_decide _).
Qed.

(** Run Analysis stores the frame of the batch when the batch is
    predicted, and leaves the session alone when a prediction raises. *)
Lemma run_analysis_run (texts : list str) (w : world) :
  (analysis texts w).1 =
    match predict (map PStr (np_asarray texts)) with
    | inr _ => Done ()
    | inl e => Raised e
    end
  ∧ session_state (analysis texts w).2 =
      match predict (map PStr (np_asarray texts)) with
      | inr results =>
          Session (text_input_single (session_state w))
            (uploader_key_counter (session_state w))
            (Some (pd_DataFrame results))
      | inl _ => session_state w
      end.
Proof.
  unfold run_analysis, mbind, app_bind, render.
  match goal with
  | |- context [batch_results _ _ _ _ texts ?w1] =>
      destruct (batch_results_run texts w1) as (new & calls & -> & _)
  end.
  destruct (predict _) as [e|results]; cbn; by split.
Qed.

Lemma parse_upload_outcome (f : UploadedFile) (w1 w2 : world) :
  (parse f w1).1 = (parse f w2).1.
Proof.
  rewrite !parse_upload_run.
  destruct (endswith _ (lit ".txt")); [done|].
  destruct (endswith _ (lit ".csv")); [|done].
  destruct (pd_read_csv _) as [e|df]; [done|]. by destruct (column _ df).
Qed.

Lemma parse_upload_world (f : UploadedFile) (w : world) :
  (parse f w).1 ≠ Stopped → (parse f w).2 = w.
Proof.
  rewrite parse_upload_run.
  destruct (endswith _ (lit ".txt")); [done|].
  destruct (endswith _ (lit ".csv")); [|done].
  destruct (pd_read_csv _) as [e|df]; [done|]. by destruct (column _ df).
Qed.

(** The [try] block: its outcome and the session it leaves. *)
Lemma process_upload_run (ui : widgets) (f : UploadedFile) (w : world) :
  let batch texts :=
    predict (map PStr (np_asarray (take (max_batch_size ui) texts))) in
  (process ui f w).1 =
    match (parse f w).1 with
    | Done texts =>
        if run_analysis_clicked ui then
          match batch texts with inr _ => Done () | inl e => Raised e end
        else Done ()
    | Raised e => Raised e
    | Stopped => Stopped
    end
  ∧ session_state (process ui f w).2 =
      match (parse f w).1 with
      | Done texts =>
          if run_analysis_clicked ui then
            match batch texts with
            | inr results =>
                Session (text_input_single (session_state w))
                  (uploader_key_counter (session_state w))
                  (Some (pd_DataFrame results))
            | inl _ => session_state w
            end
          else session_state w
      | _ => session_state w
      end.
Proof.
  intros batch.
  pose proof (parse_upload_session f w) as [Hs _].
  unfold process_upload, mbind, app_bind.
  destruct (parse f w) as [[texts|e|] w1] eqn:Hparse; cbn [fst snd] in *;
    try done.
  unfold render. cbn [session_state page predictions].
  unfold st_button. rewrite andb_true_r.
  assert (∀ texts' (w2 : world),
    texts' = take (max_batch_size ui) texts →
    session_state w2 = session_state w →
    ((if run_analysis_clicked ui then analysis texts' else mret ()) w2).1
    = (if run_analysis_clicked ui then
         match batch texts with inr _ => Done () | inl e => Raised e end
       else Done ())
    ∧ session_state
        ((if run_analysis_clicked ui then analysis texts' else mret ()) w2).2
      = (if run_analysis_clicked ui then
           match batch texts with
           | inr results =>
               Session (text_input_single (session_state w))
                 (uploader_key_counter (session_state w))
                 (Some (pd_DataFrame results))
           | inl _ => session_state w
           end
         else session_state w)) as Hrun.
  { intros texts' w2 -> Hw2. destruct (run_analysis_clicked ui); [|done].
    destruct (run_analysis_run (take (max_batch_size ui) texts) w2)
      as [-> ->].
    unfold batch. rewrite Hw2. by destruct (predict _). }
  destruct (Nat.ltb_spec (max_batch_size ui) (length texts)) as [Hlt|Hge];
    cbn [mret app_ret session_state page predictions].
  - by apply Hrun.
  - apply Hrun; [|done]. symmetry. by apply take_ge.
Qed.

(** X15.  A file that cannot be read is reported and nothing is predicted
    or stored: when a kept line of a text file is not valid UTF-8, when
    [pd.read_csv] raises, or when the file name ends with neither [.txt]
    nor [.csv] (the texts are then undefined), the second tab renders
    "Error processing file:" with the exception's text, and goes on to
    display the results stored before. *)
Theorem unreadable_upload_is_reported (ui : widgets) (f : UploadedFile)
    (w : world) (e : exn) :
  uploaded_file ui = Some f →
  (endswith (name f) (lit ".txt") = true
   ∧ txt_texts (readlines (data f)) = inl e)
  ∨ (endswith (name f) (lit ".txt") = false
     ∧ endswith (name f) (lit ".csv") = true
     ∧ pd_read_csv (data f) = inl e)
  ∨ (endswith (name f) (lit ".txt") = false
     ∧ endswith (name f) (lit ".csv") = false
     ∧ e = NameError "name 'texts' is not defined") →
  run_tab2 ui w =
    show_results to_csv ui
      (World (session_state w)
         (page w ++
            [st_header (lit "Analyze a Batch of Articles");
             st_markdown (lit "Upload a **TXT** (one article per line) or **CSV** (must contain a 'text' column) file.");
             st_error (lit "Error processing file: " ++ exn_str e)])
         (predictions w)).
Proof.
  intros Hfile Hcause.
  unfold tab2, try_except, mbind, app_bind, render.
  cbn [session_state page predictions]. rewrite Hfile.
  unfold process_upload, mbind, app_bind. rewrite parse_upload_run.
  destruct Hcause as [[-> ->]|[(-> & -> & ->)|(-> & -> & ->)]];
    cbn [outcome_of session_state page predictions];
    by rewrite <-!app_assoc.
Qed.

(** X16.  A run of the second tab on an upload either stores the frame of
    a whole batch or leaves the session as it was.  The frame is stored
    when the file is parsed, Run Analysis is clicked and every text is
    predicted; it then holds one record for each of the first
    [max_batch_size] texts of the file.  A parse error, an exception of
    the model in any chunk, or no click leave the results stored before,
    the text area and the uploader counter untouched. *)
Theorem upload_stores_whole_batch_or_nothing (ui : widgets)
    (f : UploadedFile) (w : world) :
  uploaded_file ui = Some f →
  let batch texts :=
    predict (map PStr (np_asarray (take (max_batch_size ui) texts))) in
  session_state (run_tab2 ui w).2 =
    match (parse f w).1 with
    | Done texts =>
        if run_analysis_clicked ui then
          match batch texts with
          | inr results =>
              Session (text_input_single (session_state w))
                (uploader_key_counter (session_state w))
                (Some (pd_DataFrame results))
          | inl _ => session_state w
          end
        else session_state w
    | _ => session_state w
    end
  ∧ ∀ texts results,
      batch texts = inr results →
      length results = min (max_batch_size ui) (length texts).
Proof.
  intros Hfile batch. split.
  - unfold tab2, mbind, app_bind, render.
    cbn [session_state page predictions]. rewrite Hfile.
    match goal with
    | |- context [try_except (process_upload _ _ _ _ _ _ ui f) _ ?w0] =>
        pose proof (process_upload_run ui f w0) as [Hout Hsession];
        rewrite (parse_upload_outcome f w0 w) in Hout, Hsession;
        unfold try_except;
        destruct (process_upload _ _ _ _ _ _ ui f w0) as [o w1] eqn:Hrun
    end.
    cbn [fst snd session_state] in Hout, Hsession.
    destruct o as [[]|e|]; cbn [session_state page predictions];
      rewrite ?show_results_session; cbn [snd session_state];
      rewrite Hsession; try done.
    all: destruct (parse f w).1 as [texts|e'|]; try done;
      destruct (run_analysis_clicked ui); try done;
      by destruct (batch texts).
  - intros texts results Hres. unfold batch in Hres.
    rewrite predict_category_records in Hres.
    apply records_for_inr, Forall2_length in Hres.
    unfold np_asarray in Hres. rewrite !length_map, length_take in Hres. lia.
Qed.

End TabFacts.

Lemma batch_progress_example :
  ∃ new calls,
    batch_results Demo.tokenizer Demo.model Demo.softmax Demo.labels
      (replicate 25 (lit "abc")) Demo.fresh
    = (outcome_of (Demo.predict (replicate 25 (PStr (lit "abc")))),
       World (Session [] 0 None) new calls)
    ∧ length new = 2 ∧ length calls = 2.
Proof. eexists _, _. by vm_compute. Qed.

Lemma unreadable_upload_is_reported_witness :
  let f := Upload (lit "NEWS.TXT") (lit "Stocks rally") in
  let ui := Widgets Demo.half 100 (Some f) false true in
  tab2 Demo.tokenizer Demo.model Demo.softmax Demo.labels
    Demo.read_csv Demo.repr_float Demo.to_csv ui Demo.fresh
  = (Done (),
     World (Session [] 0 None)
       [st_header (lit "Analyze a Batch of Articles");
        st_markdown (lit "Upload a **TXT** (one article per line) or **CSV** (must contain a 'text' column) file.");
        st_error (lit "Error processing file: name 'texts' is not defined")]
       []).
Proof.
  intros f ui.
  rewrite (unreadable_upload_is_reported
             Demo.tokenizer Demo.model Demo.softmax Demo.labels
             Demo.read_csv Demo.repr_float Demo.to_csv ui f Demo.fresh
             (NameError "name 'texts' is not defined") eq_refl).
  - by vm_compute.
  - right. right. by vm_compute.
Defined.

Lemma upload_stores_whole_batch_or_nothing_witness :
  let f := Upload (lit "news.txt")
             (lit "Stocks rally" ++ [10%N] ++ lit "abc" ++ [10%N]) in
  let ui := Widgets Demo.half 1 (Some f) false true in
  session_state
    (tab2 Demo.tokenizer Demo.model Demo.softmax Demo.labels
       Demo.read_csv Demo.repr_float Demo.to_csv ui Demo.fresh).2
  = Session [] 0
      (Some (pd_DataFrame
               [Result (PStr (lit "Stocks rally")) (lit "World")
                  Demo.three_quarters
                  (<[lit "World" := Demo.three_quarters]>
                     (<[lit "Sports" := Demo.quarter]> ∅))])).
Proof.
  intros f ui.
  rewrite (proj1 (upload_stores_whole_batch_or_nothing
                    Demo.tokenizer Demo.model Demo.softmax Demo.labels
                    Demo.read_csv Demo.repr_float Demo.to_csv
                    ui f Demo.fresh eq_refl)).
  by vm_compute.
Defined.

(** ** Reading the lines of a text file *)

(** The lines of a file against the file. *)
Lemma readlines_spec (data : bytes) :
  concat (readlines data) = data
  ∧ Forall (λ line, ∃ body, (10%N ∉ body)
                            ∧ (line = body ++ [10%N]
                               ∨ (line = body ∧ body ≠ [])))
      (readlines data).
Proof.
  induction data as [|b rest [IHcat IHlines]]; simpl; [by split|].
  destruct (N.eqb_spec b 10) as [->|Hb].
  - split; [simpl; by rewrite IHcat|].
    constructor; [|done]. exists []. split; [apply not_elem_of_nil | by left].
  - destruct (readlines rest) as [|line lines]; simpl in *.
    + subst rest. split; [done|]. constructor; [|done].
      exists [b]. split; [|by right].
      by apply not_elem_of_cons; split; [|apply not_elem_of_nil].
    + split; [by rewrite <-IHcat|].
      apply Forall_cons in IHlines as [(body & Hbody & Hline) IHlines].
      constructor; [|done]. exists (b :: body). split.
      * apply not_elem_of_cons. by split.
      * destruct Hline as [->|[-> _]]; [by left | by right].
Qed.

(** X17.  Iterating the uploaded file loses nothing: its lines, one after
    the other, are the file, no line is empty, and a line feed occurs in
    a line only as its last octet. *)
Theorem readlines_lines (data : bytes) :
  concat (readlines data) = data
  ∧ Forall (λ line, ∃ body, (10%N ∉ body)
                            ∧ (line = body ++ [10%N]
                               ∨ (line = body ∧ body ≠ [])))
      (readlines data).
Proof. apply readlines_spec. Qed.

Lemma utf8_decode_ascii (b : bytes) :
  Forall (λ x, (x < 0x80)%N) b → utf8_decode b = Some b.
Proof.
  induction 1 as [|x b Hx _ IH]; [done|]. cbn [utf8_decode].
  apply N.ltb_lt in Hx. rewrite Hx, IH. done.
Qed.

(** X18.  A text file of ASCII octets always parses: the texts are the
    lines that [bytes.strip] leaves non-empty, each stripped, in the order
    of the file. *)
Theorem ascii_text_file_parses (data : bytes) :
  Forall (λ b, (b < 0x80)%N) data →
  txt_texts (readlines data)
  = inr (map strip
           (List.filter (λ line, truthy (bytes_strip line))
              (readlines data))).
Proof.
  intros Hascii.
  rewrite <-(proj1 (readlines_spec data)), Forall_concat in Hascii.
  induction Hascii as [|line lines Hline _ IH]; simpl; [done|].
  destruct (truthy (bytes_strip line)); [|done].
  unfold decode_utf8. rewrite (utf8_decode_ascii line Hline), IH. done.
Qed.

Lemma txt_texts_inl (lines : list bytes) (e : exn) :
  txt_texts lines = inl e ↔
    e = UnicodeDecodeError "'utf-8' codec can't decode bytes"
    ∧ Exists (λ line, truthy (bytes_strip line) = true
                      ∧ utf8_decode line = None) lines.
Proof.
  induction lines as [|line rest IH]; simpl.
  { split; [done|]. by intros [_ ?%Exists_nil]. }
  rewrite Exists_cons.
  destruct (truthy (bytes_strip line)) eqn:Hkeep.
  - unfold decode_utf8. destruct (utf8_decode line) as [s|] eqn:Hdec.
    + destruct (txt_texts rest) as [e'|ts].
      * split.
        -- intros [-> H]%IH. split; [done | by right].
        -- intros [He [[_ ?]|H]]; [done|]. apply IH. by split.
      * split; [done|]. intros [He [[_ ?]|H]]; [done|].
        by pose proof (proj2 IH (conj He H)).
    + split.
      * intros [= <-]. split; [done | by left].
      * by intros [-> _].
  - rewrite IH. split.
    + intros [-> H]. split; [done | by right].
    + intros [-> [[? _]|H]]; [done | by split].
Qed.

(** X19.  Parsing a text file raises exactly when one of the lines that
    [bytes.strip] leaves non-empty is not well-formed UTF-8, and what it
    raises is a [UnicodeDecodeError]; blank lines are never decoded. *)
Theorem txt_texts_error (lines : list bytes) :
  ((∃ e, txt_texts lines = inl e) ↔
     Exists (λ line, truthy (bytes_strip line) = true
                     ∧ utf8_decode line = None) lines)
  ∧ ∀ e, txt_texts lines = inl e → exn_class e = "UnicodeDecodeError"%string.
Proof.
  split.
  - split.
    + intros [e [_ H]%txt_texts_inl]. done.
    + intros H. eexists. apply txt_texts_inl. by split.
  - by intros e [-> _]%txt_texts_inl.
Qed.

Lemma ascii_text_file_parses_witness :
  txt_texts (readlines (lit "Stocks rally " ++ [10%N; 10%N] ++ lit " abc"))
  = inr [lit "Stocks rally"; lit "abc"].
Proof.
  rewrite (ascii_text_file_parses
             (lit "Stocks rally " ++ [10%N; 10%N] ++ lit " abc")).
  - by vm_compute.
  - apply Forall_forall. intros b Hb. vm_compute in Hb.
    repeat (apply elem_of_cons in Hb as [->|Hb]; [done|]).
    by apply elem_of_nil in Hb.
Defined.

(** The octets E9 alone are Latin-1, not UTF-8: the file is rejected. *)
Lemma txt_texts_error_example :
  txt_texts (readlines (lit "caf" ++ [0xE9%N; 10%N]))
  = inl (UnicodeDecodeError "'utf-8' codec can't decode bytes").
Proof. by vm_compute. Qed.
